(** * WaterDropEngine: the render pipeline instance

    A shallow embedding of [wde::render::WdeRenderPipelineInstance]
    (WdeRender/WdeRenderPipelineInstance.cpp): the per-frame [tick], the
    construction of the render passes by [setStructure], and the
    begin/end commands of render passes and subpasses.

    C++ exceptions and out-of-range [operator[]] are explicit: a command
    either returns, throws a [WdeException], or has undefined behaviour. *)

From Stdlib Require Import ZArith Lia String Ascii.
From stdpp Require Import base tactics option list list_numbers strings pretty gmap.
From Equations Require Import Equations.
From Equations.Prop Require Logic.

Local Open Scope Z_scope.

(** ** Machine integers *)

Module Cxx.
(** [uint32_t] and [std::size_t] keep the value modulo their range;
    [int] is the two's complement reading of the low 32 bits. *)
Definition UINT32_RANGE : Z := 2 ^ 32.
Definition SIZE_RANGE : Z := 2 ^ 64.
Definition INT_MAX : Z := 2 ^ 31 - 1.

Definition to_uint32 (z : Z) : Z := z mod UINT32_RANGE.
Definition to_size_t (z : Z) : Z := z mod SIZE_RANGE.
Definition to_int (z : Z) : Z := (z + 2 ^ 31) mod UINT32_RANGE - 2 ^ 31.

Definition is_uint32 (z : Z) : Prop := 0 <= z < UINT32_RANGE.

(** [v[i]] for a [std::vector] [v] and an index [i] of type [size_t]:
    defined only below [v.size()]. *)
Definition at_ {A : Type} (v : list A) (i : Z) : option A :=
  if bool_decide (0 <= i < Z.of_nat (length v)) then v !! Z.to_nat i else None.
End Cxx.

(** ** Exceptions *)

(** One constructor for each [throw WdeException(LogChannel::RENDER, ...)] of
    the file, with the numbers its message prints; the last two are the state
    errors of the command buffer, whose file is not among the sources. *)
Inductive WdeException : Type :=
  | NoAttachments
  | MissingRenderPass (expected : Z)
  | MissingRenderSubPass (expected pass : Z)
  | PassAlreadyBegan (index current : Z)
  | PassNotCreated (index : Z)
  | EndPassInSubPass (current sub : Z)
  | SubPassOutsidePass (index : Z)
  | SubPassAlreadyBegan (index sub current : Z)
  | SubPassNotCreated (index : Z)
  | EndSubPassOutsidePass (sub : Z)
  | PresentFailed
  | RecorderNotIdle
  | RecorderNotRecording.

(** The message of an exception thrown by the file, [std::to_string] printing
    in decimal. *)
Definition what (e : WdeException) : option string :=
  match e with
  | NoAttachments =>
      Some "Tried to create render passes before creating attachments in the render pipeline."
  | MissingRenderPass expected =>
      Some ("Missing render pass with ID = " +:+ pretty expected +:+ ".")
  | MissingRenderSubPass expected pass =>
      Some ("Missing render subpass with ID = " +:+ pretty expected +:+
            " in render pass with ID = " +:+ pretty pass +:+ ".")
  | PassAlreadyBegan index current =>
      Some ("Trying to begin pass " +:+ pretty index +:+ " while pass " +:+
            pretty current +:+ " has already began.")
  | PassNotCreated index =>
      Some ("Trying to begin pass " +:+ pretty index +:+ " which wasn't created.")
  | EndPassInSubPass current sub =>
      Some ("Trying to end render pass " +:+ pretty current +:+ " while subpass " +:+
            pretty sub +:+ " has already began.")
  | SubPassOutsidePass index =>
      Some ("Trying to begin subpass " +:+ pretty index +:+ " outside of a render pass.")
  | SubPassAlreadyBegan index sub current =>
      Some ("Trying to begin subpass " +:+ pretty index +:+ " while subpass " +:+
            pretty sub +:+ " has already began in render pass " +:+ pretty current)
  | SubPassNotCreated index =>
      Some ("Trying to begin pass " +:+ pretty index +:+ " which wasn't created.")
  | EndSubPassOutsidePass sub =>
      Some ("Trying to end subpass " +:+ pretty sub +:+ " outside of a render pass.")
  | PresentFailed => Some "Failed to present swap chain image."
  | RecorderNotIdle | RecorderNotRecording => None
  end.

(** The kinds of error the design distinguishes. *)
Inductive ErrorKind : Type :=
  | MissingAttachmentsError
  | StructureGapError
  | AlreadyActiveError
  | OutOfRangeError
  | SubpassStillActiveError
  | NoActivePassError
  | PresentationError
  | RecorderStateError.

Definition kind (e : WdeException) : ErrorKind :=
  match e with
  | NoAttachments => MissingAttachmentsError
  | MissingRenderPass _ | MissingRenderSubPass _ _ => StructureGapError
  | PassAlreadyBegan _ _ | SubPassAlreadyBegan _ _ _ => AlreadyActiveError
  | PassNotCreated _ | SubPassNotCreated _ => OutOfRangeError
  | EndPassInSubPass _ _ => SubpassStillActiveError
  | SubPassOutsidePass _ | EndSubPassOutsidePass _ => NoActivePassError
  | PresentFailed => PresentationError
  | RecorderNotIdle | RecorderNotRecording => RecorderStateError
  end.

(** ** Commands: state, exceptions, undefined behaviour *)

Inductive outcome (S A : Type) : Type :=
  | Done (a : A) (s : S)
  | Throw (e : WdeException) (s : S)
  | Undefined.
Arguments Done {S A} a s.
Arguments Throw {S A} e s.
Arguments Undefined {S A}.

Definition cmd (S A : Type) : Type := S -> outcome S A.

Definition ret {S A : Type} (a : A) : cmd S A := fun s => Done a s.

Definition bind {S A B : Type} (c : cmd S A) (k : A -> cmd S B) : cmd S B :=
  fun s =>
    match c s with
    | Done a s' => k a s'
    | Throw e s' => Throw e s'
    | Undefined => Undefined
    end.

Definition throw {S A : Type} (e : WdeException) : cmd S A := fun s => Throw e s.
Definition undefined {S A : Type} : cmd S A := fun _ => Undefined.
Definition gets {S A : Type} (f : S -> A) : cmd S A := fun s => Done (f s) s.
Definition modify {S : Type} (f : S -> S) : cmd S unit := fun s => Done tt (f s).

(** [if (b) throw e;] *)
Definition throw_if {S : Type} (b : bool) (e : WdeException) : cmd S unit :=
  if b then throw e else ret tt.

(** A value that exists only when the access is in range. *)
Definition defined {S A : Type} (o : option A) : cmd S A :=
  match o with
  | Some a => ret a
  | None => undefined
  end.

(** A command of a part of the state, run on the whole state. *)
Definition zoom {S T A : Type} (get : S -> T) (set : T -> S -> S)
    (c : cmd T A) : cmd S A :=
  fun s =>
    match c (get s) with
    | Done a t => Done a (set t s)
    | Throw e t => Throw e (set t s)
    | Undefined => Undefined
    end.

Declare Scope cmd_scope.
Delimit Scope cmd_scope with cmd.
Notation "x <- c ;; k" := (bind c (fun x => k))
  (at level 100, c at next level, k at level 200, right associativity) : cmd_scope.
Notation "c ;; k" := (bind c (fun _ => k))
  (at level 100, k at level 200, right associativity) : cmd_scope.
Local Open Scope cmd_scope.

Definition threw {S A : Type} (o : outcome S A) : option WdeException :=
  match o with
  | Throw e _ => Some e
  | _ => None
  end.

Definition returned {S A : Type} (o : outcome S A) : option S :=
  match o with
  | Done _ s => Some s
  | _ => None
  end.

(** ** Data model of the render pipeline *)

(** Modelled from the spec: the headers of [RenderAttachment],
    [RenderPassStructure], [RenderSubPassStructure] and [RenderPass] are not
    among the sources.  An attachment has an index, a label and a kind; a
    subpass has an id and the attachments it reads and writes; a pass has an
    id and its subpasses, in order.  The ids are [uint32_t] values. *)
Inductive AttachmentType : Type := COLOR | DEPTH | SWAPCHAIN.

Record RenderAttachment : Type := {
  _bindingIndex : Z;
  _description : string;
  _type : AttachmentType
}.

Record RenderSubPassStructure : Type := {
  _subpassID : Z;
  _readingAttachments : list Z;
  _writingAttachments : list Z
}.

Record RenderPassStructure : Type := {
  _passID : Z;
  _subPasses : list RenderSubPassStructure
}.

(** Modelled from the spec: RenderPass.cpp is not among the sources.  A
    runtime render pass is built from the attachments and the subpasses of
    its structure entry; [start], [end], [startSubPass] and [endSubPass]
    return normally and are kept as the list of calls the object received;
    [getSubPassesCount] is the number of subpasses it was built with. *)
Inductive RenderPassCall : Type :=
  | Start
  | End_
  | StartSubPass (index : Z)
  | EndSubPass (index : Z).

Record RenderPass : Type := {
  rp_attachments : list RenderAttachment;
  rp_subPasses : list RenderSubPassStructure;
  rp_calls : list RenderPassCall
}.

Definition makeRenderPass (attachments : list RenderAttachment)
    (subPasses : list RenderSubPassStructure) : RenderPass :=
  {| rp_attachments := attachments; rp_subPasses := subPasses; rp_calls := [] |}.

Definition getSubPassesCount (p : RenderPass) : Z :=
  Z.of_nat (length (rp_subPasses p)).

Definition called (c : RenderPassCall) (p : RenderPass) : RenderPass :=
  {| rp_attachments := rp_attachments p;
     rp_subPasses := rp_subPasses p;
     rp_calls := rp_calls p ++ [c] |}.

(** Modelled from the spec: WdeRenderPipelineInstance.hpp is not among the
    sources.  [_currentRenderPassID] and [_currentRenderSubPassID] are [int]
    fields holding -1 while no pass, respectively no subpass, is active, as
    the comparisons with -1 of the source read them. *)
Record WdeRenderPipelineInstance : Type := {
  _attachments : list RenderAttachment;
  _structure : list RenderPassStructure;
  _passes : list RenderPass;
  _currentRenderPassID : Z;
  _currentRenderSubPassID : Z
}.

Definition set_attachments (a : list RenderAttachment)
    (p : WdeRenderPipelineInstance) : WdeRenderPipelineInstance :=
  {| _attachments := a; _structure := _structure p; _passes := _passes p;
     _currentRenderPassID := _currentRenderPassID p;
     _currentRenderSubPassID := _currentRenderSubPassID p |}.

Definition set_structure (st : list RenderPassStructure)
    (p : WdeRenderPipelineInstance) : WdeRenderPipelineInstance :=
  {| _attachments := _attachments p; _structure := st; _passes := _passes p;
     _currentRenderPassID := _currentRenderPassID p;
     _currentRenderSubPassID := _currentRenderSubPassID p |}.

Definition set_passes (ps : list RenderPass)
    (p : WdeRenderPipelineInstance) : WdeRenderPipelineInstance :=
  {| _attachments := _attachments p; _structure := _structure p; _passes := ps;
     _currentRenderPassID := _currentRenderPassID p;
     _currentRenderSubPassID := _currentRenderSubPassID p |}.

Definition set_currentRenderPassID (id : Z)
    (p : WdeRenderPipelineInstance) : WdeRenderPipelineInstance :=
  {| _attachments := _attachments p; _structure := _structure p;
     _passes := _passes p;
     _currentRenderPassID := id;
     _currentRenderSubPassID := _currentRenderSubPassID p |}.

Definition set_currentRenderSubPassID (id : Z)
    (p : WdeRenderPipelineInstance) : WdeRenderPipelineInstance :=
  {| _attachments := _attachments p; _structure := _structure p;
     _passes := _passes p;
     _currentRenderPassID := _currentRenderPassID p;
     _currentRenderSubPassID := id |}.

(** A pipeline instance as constructed: nothing declared, no pass active. *)
Definition newPipeline : WdeRenderPipelineInstance :=
  {| _attachments := []; _structure := []; _passes := [];
     _currentRenderPassID := -1; _currentRenderSubPassID := -1 |}.

(** The states of the begin/end protocol, read off the two id fields. *)
Inductive PassState : Type :=
  | Outside
  | InPass (pass : Z)
  | InPassAndSubpass (pass sub : Z).

Definition passState (p : WdeRenderPipelineInstance) : PassState :=
  if _currentRenderPassID p =? -1 then Outside
  else if _currentRenderSubPassID p =? -1 then InPass (_currentRenderPassID p)
  else InPassAndSubpass (_currentRenderPassID p) (_currentRenderSubPassID p).

(** ** Render pass commands *)

Abbreviation pipe := (cmd WdeRenderPipelineInstance).

(** [_passes[id]], the [int] id converted to the [size_t] index. *)
Definition passAt (id : Z) : pipe RenderPass :=
  passes <- gets _passes ;;
  defined (Cxx.at_ passes (Cxx.to_size_t id)).

(** [_passes[id]->c(...)]: the pass object at that index receives the call. *)
Definition callPass (id : Z) (c : RenderPassCall) : pipe unit :=
  _ <- passAt id ;;
  modify (fun p => set_passes (alter (called c) (Z.to_nat (Cxx.to_size_t id)) (_passes p)) p).

Definition beginRenderPass (index : Z) : pipe unit :=
  current <- gets _currentRenderPassID ;;
  throw_if (negb (current =? -1)) (PassAlreadyBegan index current) ;;
  size <- gets (fun p => Z.of_nat (length (_passes p))) ;;
  throw_if (size <=? index) (PassNotCreated index) ;;
  modify (set_currentRenderPassID (Cxx.to_int index)) ;;
  current <- gets _currentRenderPassID ;;
  callPass current Start.

Definition endRenderPass : pipe unit :=
  current <- gets _currentRenderPassID ;;
  sub <- gets _currentRenderSubPassID ;;
  throw_if (negb (sub =? -1)) (EndPassInSubPass current sub) ;;
  callPass current End_ ;;
  modify (set_currentRenderPassID (-1)).

Definition beginRenderSubPass (index : Z) : pipe unit :=
  current <- gets _currentRenderPassID ;;
  throw_if (current =? -1) (SubPassOutsidePass index) ;;
  sub <- gets _currentRenderSubPassID ;;
  throw_if (negb (sub =? -1)) (SubPassAlreadyBegan index sub current) ;;
  pass <- passAt current ;;
  throw_if (getSubPassesCount pass <=? index) (SubPassNotCreated index) ;;
  modify (set_currentRenderSubPassID (Cxx.to_int index)) ;;
  callPass current (StartSubPass index).

Definition endRenderSubPass : pipe unit :=
  current <- gets _currentRenderPassID ;;
  sub <- gets _currentRenderSubPassID ;;
  throw_if (current =? -1) (EndSubPassOutsidePass sub) ;;
  callPass current (EndSubPass sub) ;;
  modify (set_currentRenderSubPassID (-1)).

(** ** Declaring attachments and structure *)

(** Modelled from the spec: [setAttachments] is defined in the header, which
    is not among the sources; it stores the attachment set. *)
Definition setAttachments (attachments : list RenderAttachment) : pipe unit :=
  modify (set_attachments attachments).

(** The inner loop of [setStructure]: [iterator2] counts the subpasses of the
    pass numbered [iterator]. *)
Fixpoint checkSubPasses (iterator iterator2 : Z)
    (subPasses : list RenderSubPassStructure) : pipe unit :=
  match subPasses with
  | [] => ret tt
  | sub :: rest =>
      throw_if (negb (iterator2 =? _subpassID sub))
               (MissingRenderSubPass iterator2 iterator) ;;
      checkSubPasses iterator (Cxx.to_uint32 (iterator2 + 1)) rest
  end.

(** The outer loop of [setStructure]. *)
Fixpoint createPasses (iterator : Z) (structure : list RenderPassStructure)
    : pipe unit :=
  match structure with
  | [] => ret tt
  | str :: rest =>
      throw_if (negb (iterator =? _passID str)) (MissingRenderPass iterator) ;;
      checkSubPasses iterator 0 (_subPasses str) ;;
      attachments <- gets _attachments ;;
      modify (fun p =>
        set_passes (_passes p ++ [makeRenderPass attachments (_subPasses str)]) p) ;;
      createPasses (Cxx.to_uint32 (iterator + 1)) rest
  end.

Definition setStructure (structure : list RenderPassStructure) : pipe unit :=
  modify (set_structure structure) ;;
  attachments <- gets _attachments ;;
  throw_if (bool_decide (attachments = [])) NoAttachments ;;
  createPasses 0 structure.

Definition onWindowResized : pipe unit :=
  modify (set_passes []) ;;
  structure <- gets _structure ;;
  setStructure structure.

(** Ids that count up from [start], as the design requires them. *)
Definition subPassIDs (subPasses : list RenderSubPassStructure) : list Z :=
  _subpassID <$> subPasses.

Definition passIDs (structure : list RenderPassStructure) : list Z :=
  _passID <$> structure.

Definition contiguousSubPasses (subPasses : list RenderSubPassStructure) : Prop :=
  subPassIDs subPasses = seqZ 0 (Z.of_nat (length subPasses)).

Definition contiguousFrom (start : Z) (structure : list RenderPassStructure) : Prop :=
  passIDs structure = seqZ start (Z.of_nat (length structure)) /\
  Forall (fun str => contiguousSubPasses (_subPasses str)) structure.

Definition contiguous (structure : list RenderPassStructure) : Prop :=
  contiguousFrom 0 structure.

(** Sizes that the [uint32_t] iterators of [setStructure] count without
    wrapping around. *)
Definition countable {A : Type} (l : list A) : Prop :=
  Z.of_nat (length l) <= Cxx.UINT32_RANGE.

Definition countableStructure (structure : list RenderPassStructure) : Prop :=
  countable structure /\ Forall (fun str => countable (_subPasses str)) structure.

(** ** The renderer and its swapchain *)

Definition VkFence : Type := Z.
Definition VkSemaphore : Type := Z.

Inductive VkResult : Type :=
  | VK_SUCCESS
  | VK_SUBOPTIMAL_KHR
  | VK_ERROR_OUT_OF_DATE_KHR
  | VK_ERROR_SURFACE_LOST_KHR
  | VK_ERROR_DEVICE_LOST.

Definition isSuccess (r : VkResult) : bool :=
  match r with
  | VK_SUCCESS => true
  | _ => false
  end.

Record CommandBuffer : Type := { _running : bool }.

Definition isRunning (c : CommandBuffer) : bool := _running c.

(** Modelled from the spec: Swapchain.hpp is not among the sources.  The
    swapchain holds the index of the image that the surface handed out last,
    a [uint32_t], and the arrays of completion fences, image-available
    signals and render-finished signals. *)
Record Swapchain : Type := {
  _activeImageIndex : Z;
  _inFlightFences : list VkFence;
  _imageAvailableSemaphores : list VkSemaphore;
  _renderFinishedSemaphores : list VkSemaphore
}.

Record CoreInstance : Type := {
  _currentFramesInFlightCount : Z;
  _currentFrame : Z;
  _commandBuffers : list CommandBuffer;
  _swapchain : Swapchain
}.

(** What the device, the surface and the application see of a tick. *)
Inductive Event : Type :=
  | AcquireNextImage (image : Z)
  | CmdBegin (slot : Z)
  | RenderCallback (slot : Z)
  | WaitForFences (fence : VkFence)
  | CmdEnd (slot : Z)
  | CmdSubmit (slot : Z) (fence : VkFence) (wait signal : VkSemaphore)
  | PresentToQueue (image : Z).

Record Engine : Type := {
  renderer : CoreInstance;
  pipeline : WdeRenderPipelineInstance;
  trace : list Event
}.

Definition set_renderer (r : CoreInstance) (e : Engine) : Engine :=
  {| renderer := r; pipeline := pipeline e; trace := trace e |}.

Definition set_pipeline (p : WdeRenderPipelineInstance) (e : Engine) : Engine :=
  {| renderer := renderer e; pipeline := p; trace := trace e |}.

Definition set_activeImageIndex (image : Z) (r : CoreInstance) : CoreInstance :=
  {| _currentFramesInFlightCount := _currentFramesInFlightCount r;
     _currentFrame := _currentFrame r;
     _commandBuffers := _commandBuffers r;
     _swapchain :=
       {| _activeImageIndex := image;
          _inFlightFences := _inFlightFences (_swapchain r);
          _imageAvailableSemaphores := _imageAvailableSemaphores (_swapchain r);
          _renderFinishedSemaphores := _renderFinishedSemaphores (_swapchain r) |} |}.

Definition set_currentFrame (frame : Z) (r : CoreInstance) : CoreInstance :=
  {| _currentFramesInFlightCount := _currentFramesInFlightCount r;
     _currentFrame := frame;
     _commandBuffers := _commandBuffers r;
     _swapchain := _swapchain r |}.

Definition set_commandBuffers (bufs : list CommandBuffer) (r : CoreInstance)
    : CoreInstance :=
  {| _currentFramesInFlightCount := _currentFramesInFlightCount r;
     _currentFrame := _currentFrame r;
     _commandBuffers := bufs;
     _swapchain := _swapchain r |}.

Abbreviation engine := (cmd Engine).

Definition emit (ev : Event) : engine unit :=
  modify (fun e =>
    {| renderer := renderer e; pipeline := pipeline e; trace := trace e ++ [ev] |}).

Definition getCurrentFrame : engine Z := gets (fun e => _currentFrame (renderer e)).
Definition getMaxFramesInFlight : engine Z :=
  gets (fun e => _currentFramesInFlightCount (renderer e)).
Definition getActiveImageIndex : engine Z :=
  gets (fun e => _activeImageIndex (_swapchain (renderer e))).

Definition getInFlightFence (i : Z) : engine VkFence :=
  fences <- gets (fun e => _inFlightFences (_swapchain (renderer e))) ;;
  defined (Cxx.at_ fences i).
Definition getImageAvailableSemaphore (i : Z) : engine VkSemaphore :=
  sems <- gets (fun e => _imageAvailableSemaphores (_swapchain (renderer e))) ;;
  defined (Cxx.at_ sems i).
Definition getRenderFinishedSemaphore (i : Z) : engine VkSemaphore :=
  sems <- gets (fun e => _renderFinishedSemaphores (_swapchain (renderer e))) ;;
  defined (Cxx.at_ sems i).

(** [a % b] on unsigned operands; undefined for [b = 0]. *)
Definition urem {S : Type} (a b : Z) : cmd S Z :=
  if b =? 0 then undefined else ret (a mod b).

(** Modelled from the spec: Swapchain.cpp is not among the sources.
    [aquireNextImage] obtains the index of the next presentable image from
    the surface, here [image]; [presentToQueue] asks the surface to present
    the active image and returns the surface's answer, here [result]. *)
Definition aquireNextImage (image : Z) : engine unit :=
  modify (fun e => set_renderer (set_activeImageIndex image (renderer e)) e) ;;
  emit (AcquireNextImage image).

Definition presentToQueue (result : VkResult) : engine VkResult :=
  image <- getActiveImageIndex ;;
  emit (PresentToQueue image) ;;
  ret result.

Definition vkWaitForFences (fence : VkFence) : engine unit :=
  emit (WaitForFences fence).

(** Modelled from the spec: CommandBuffer.cpp is not among the sources.  The
    recorder of a frame slot goes from idle to recording by [begin], which
    fails if it is not idle, and back by [end], which fails if it is not
    recording; [submit] hands the recorded stream to the queue with its
    fence and signals and returns at once. *)
Definition commandBufferAt (slot : Z) : engine CommandBuffer :=
  bufs <- gets (fun e => _commandBuffers (renderer e)) ;;
  defined (Cxx.at_ bufs slot).

Definition setRunning (slot : Z) (b : bool) : engine unit :=
  modify (fun e =>
    set_renderer
      (set_commandBuffers
         (<[Z.to_nat slot := {| _running := b |}]> (_commandBuffers (renderer e)))
         (renderer e)) e).

Definition CommandBuffer_begin (slot : Z) : engine unit :=
  commandBuffer <- commandBufferAt slot ;;
  throw_if (isRunning commandBuffer) RecorderNotIdle ;;
  setRunning slot true ;;
  emit (CmdBegin slot).

Definition CommandBuffer_end (slot : Z) : engine unit :=
  commandBuffer <- commandBufferAt slot ;;
  throw_if (negb (isRunning commandBuffer)) RecorderNotRecording ;;
  setRunning slot false ;;
  emit (CmdEnd slot).

Definition CommandBuffer_submit (slot : Z) (fence : VkFence)
    (waitSemaphore signalSemaphore : VkSemaphore) : engine unit :=
  emit (CmdSubmit slot fence waitSemaphore signalSemaphore).

(** ** The tick *)

(** What one tick receives from outside: the image the surface hands out,
    the application's [render] override (given the frame slot of the command
    buffer it records into), and the surface's answer to the present. *)
Record TickInput : Type := {
  nextImage : Z;
  render : Z -> pipe unit;
  presentResult : VkResult
}.

Definition tick (input : TickInput) : engine unit :=
  aquireNextImage (nextImage input) ;;
  frame <- getCurrentFrame ;;
  commandBuffer <- commandBufferAt frame ;;
  (if negb (isRunning commandBuffer) then CommandBuffer_begin frame else ret tt) ;;
  emit (RenderCallback frame) ;;
  zoom pipeline set_pipeline (render input frame) ;;
  image <- getActiveImageIndex ;;
  maxFrames <- getMaxFramesInFlight ;;
  last <- urem (Cxx.to_uint32 (image - 1)) (Cxx.to_uint32 maxFrames) ;;
  lastFence <- getInFlightFence last ;;
  vkWaitForFences lastFence ;;
  CommandBuffer_end frame ;;
  image <- getActiveImageIndex ;;
  fence <- getInFlightFence image ;;
  waitSemaphore <- getImageAvailableSemaphore image ;;
  signalSemaphore <- getRenderFinishedSemaphore image ;;
  CommandBuffer_submit frame fence waitSemaphore signalSemaphore ;;
  result <- presentToQueue (presentResult input) ;;
  throw_if (negb (isSuccess result)) PresentFailed ;;
  frame <- getCurrentFrame ;;
  maxFrames <- getMaxFramesInFlight ;;
  next <- urem (Cxx.to_size_t (frame + 1)) (Cxx.to_size_t maxFrames) ;;
  modify (fun e => set_renderer (set_currentFrame next (renderer e)) e).

(** Consecutive ticks of the frame loop. *)
Fixpoint ticks (inputs : list TickInput) : engine unit :=
  match inputs with
  | [] => ret tt
  | input :: rest => tick input ;; ticks rest
  end.

(** The frame slots whose command buffer was submitted, in order. *)
Definition submittedSlots (tr : list Event) : list Z :=
  omap (fun ev => match ev with CmdSubmit slot _ _ _ => Some slot | _ => None end) tr.

(** What a tick that returns has emitted, and the renderer it leaves. *)
Definition tickEvents (frame image : Z) (wasRunning : bool)
    (lastFence fence : VkFence) (waitSemaphore signalSemaphore : VkSemaphore) : list Event :=
  AcquireNextImage image ::
  (if wasRunning then [] else [CmdBegin frame]) ++
  [ RenderCallback frame; WaitForFences lastFence; CmdEnd frame;
    CmdSubmit frame fence waitSemaphore signalSemaphore; PresentToQueue image ].

Definition rendererAfterTick (image : Z) (r : CoreInstance) : CoreInstance :=
  set_currentFrame
    (Cxx.to_size_t (_currentFrame r + 1) mod Cxx.to_size_t (_currentFramesInFlightCount r))
    (set_commandBuffers
       (<[Z.to_nat (_currentFrame r) := {| _running := false |}]> (_commandBuffers r))
       (set_activeImageIndex image r)).

(** The submissions of a trace, in order. *)
Definition isSubmit (ev : Event) : bool :=
  match ev with
  | CmdSubmit _ _ _ _ => true
  | _ => false
  end.

Definition submissions (tr : list Event) : list Event :=
  filter (fun ev => isSubmit ev = true) tr.

(** The ordering as the design document words it: the trace waits for
    [slotFence], the completion fence of frame slot [slot], and does so
    before it begins the command buffer of that slot. *)
Fixpoint waitsBeforeBegin (slotFence : VkFence) (slot : Z) (tr : list Event) : bool :=
  match tr with
  | [] => false
  | WaitForFences fence :: rest =>
      (fence =? slotFence) || waitsBeforeBegin slotFence slot rest
  | CmdBegin s :: rest =>
      negb (s =? slot) && waitsBeforeBegin slotFence slot rest
  | _ :: rest => waitsBeforeBegin slotFence slot rest
  end.

(** The submission as the design document words it: the command buffer of
    the current frame slot goes out with the fence of that frame slot and
    with the signals of the acquired image. *)
Definition submitsWithSlotFence (e : Engine) (image : Z) (tr : list Event) : Prop :=
  let r := renderer e in
  exists fence waitSemaphore signalSemaphore,
    Cxx.at_ (_inFlightFences (_swapchain r)) (_currentFrame r) = Some fence /\
    Cxx.at_ (_imageAvailableSemaphores (_swapchain r)) image = Some waitSemaphore /\
    Cxx.at_ (_renderFinishedSemaphores (_swapchain r)) image = Some signalSemaphore /\
    submissions tr = [CmdSubmit (_currentFrame r) fence waitSemaphore signalSemaphore].

(** The example pipeline of app/examples/02-3D_Cube. *)
Definition example02_attachments : list RenderAttachment :=
  [ {| _bindingIndex := 0; _description := "Depth texture"; _type := DEPTH |};
    {| _bindingIndex := 1; _description := "Swapchain attachment"; _type := SWAPCHAIN |} ].

Definition example02_structure : list RenderPassStructure :=
  [ {| _passID := 0;
       _subPasses :=
         [ {| _subpassID := 0; _readingAttachments := []; _writingAttachments := [0; 1] |};
           {| _subpassID := 1; _readingAttachments := []; _writingAttachments := [1] |} ] |} ].

Definition example02_setup : pipe unit :=
  setAttachments example02_attachments ;;
  setStructure example02_structure.

Definition example02_render (slot : Z) : pipe unit :=
  beginRenderPass 0 ;;
  beginRenderSubPass 0 ;;
  endRenderSubPass ;;
  beginRenderSubPass 1 ;;
  endRenderSubPass ;;
  endRenderPass.

Definition exampleRenderer (frame : Z) : CoreInstance :=
  {| _currentFramesInFlightCount := 3;
     _currentFrame := frame;
     _commandBuffers := [ {| _running := false |}; {| _running := false |}; {| _running := false |} ];
     _swapchain :=
       {| _activeImageIndex := 0;
          _inFlightFences := [100; 101; 102];
          _imageAvailableSemaphores := [200; 201; 202];
          _renderFinishedSemaphores := [300; 301; 302] |} |}.

Definition exampleEngine (frame : Z) (p : WdeRenderPipelineInstance) : Engine :=
  {| renderer := exampleRenderer frame; pipeline := p; trace := [] |}.

Definition example02_pipeline : WdeRenderPipelineInstance :=
  default newPipeline (returned (example02_setup newPipeline)).

Definition exampleInput (image : Z) : TickInput :=
  {| nextImage := image; render := example02_render; presentResult := VK_SUCCESS |}.

(** The example engine after one tick that acquires image 2, and after four
    ticks of the frame loop. *)
Definition exampleAfterTick : Engine :=
  default (exampleEngine 0 example02_pipeline)
    (returned (tick (exampleInput 2) (exampleEngine 0 example02_pipeline))).

Definition exampleInputs : list TickInput :=
  [exampleInput 0; exampleInput 1; exampleInput 2; exampleInput 0].

Definition exampleAfterTicks : Engine :=
  default (exampleEngine 0 example02_pipeline)
    (returned (ticks exampleInputs (exampleEngine 0 example02_pipeline))).

(** The example pipeline inside its render pass, and inside subpass 0. *)
Definition example02_inPass : WdeRenderPipelineInstance :=
  default newPipeline (returned (beginRenderPass 0 example02_pipeline)).

Definition example02_inSubPass : WdeRenderPipelineInstance :=
  default newPipeline (returned (beginRenderSubPass 0 example02_inPass)).

(** ** Well-formed pipeline states *)

(** What every state of a pipeline instance satisfies: the pass list is a
    [std::vector] (its size is below [SIZE_MAX]), a subpass is active only
    inside a pass, and the active pass is one of the list. *)
Record wellFormed (p : WdeRenderPipelineInstance) : Prop := {
  wf_size : Z.of_nat (length (_passes p)) < Cxx.SIZE_RANGE;
  wf_outside : _currentRenderPassID p = -1 -> _currentRenderSubPassID p = -1;
  wf_pass : _currentRenderPassID p <> -1 ->
            0 <= _currentRenderPassID p < Z.of_nat (length (_passes p))
}.

(** The runtime pass at position [id] received [c] as its last call. *)
Definition lastCall (p : WdeRenderPipelineInstance) (id : Z) : option RenderPassCall :=
  match Cxx.at_ (_passes p) id with
  | Some pass => last (rp_calls pass)
  | None => None
  end.

(** ** Sequences of render pass commands *)

(** The calls that a render override makes on the pipeline. *)
Inductive ProtocolCall : Type :=
  | BeginRenderPass (index : Z)
  | EndRenderPass
  | BeginRenderSubPass (index : Z)
  | EndRenderSubPass.

Definition runCall (c : ProtocolCall) : pipe unit :=
  match c with
  | BeginRenderPass index => beginRenderPass index
  | EndRenderPass => endRenderPass
  | BeginRenderSubPass index => beginRenderSubPass index
  | EndRenderSubPass => endRenderSubPass
  end.

Fixpoint runCalls (cs : list ProtocolCall) : pipe unit :=
  match cs with
  | [] => ret tt
  | c :: rest => runCall c ;; runCalls rest
  end.

Definition callIndex (c : ProtocolCall) : option Z :=
  match c with
  | BeginRenderPass index | BeginRenderSubPass index => Some index
  | EndRenderPass | EndRenderSubPass => None
  end.

(** The shape of the [render] overrides of the examples: one render pass,
    and inside it the given subpasses, each begun and ended in turn. *)
Definition renderPassCycle (index : Z) (subPasses : list Z) : list ProtocolCall :=
  BeginRenderPass index ::
  flat_map (fun j => [BeginRenderSubPass j; EndRenderSubPass]) subPasses ++
  [EndRenderPass].

(** The runtime pass after it received the calls [cs], in order. *)
Definition calledAll (cs : list RenderPassCall) (p : RenderPass) : RenderPass :=
  {| rp_attachments := rp_attachments p;
     rp_subPasses := rp_subPasses p;
     rp_calls := rp_calls p ++ cs |}.

(** The runtime passes that [setStructure] builds for a structure. *)
Definition runtimePasses (attachments : list RenderAttachment)
    (structure : list RenderPassStructure) : list RenderPass :=
  (fun str => makeRenderPass attachments (_subPasses str)) <$> structure.

(** A call whose index, when it has one, fits the [int] id fields. *)
Definition indexFits (c : ProtocolCall) : Prop :=
  match callIndex c with
  | Some index => 0 <= index <= Cxx.INT_MAX
  | None => True
  end.

(** The pipeline after the runtime pass at [index] received the calls [cs]. *)
Definition withCalls (index : Z) (cs : list RenderPassCall)
    (p : WdeRenderPipelineInstance) : WdeRenderPipelineInstance :=
  set_passes (alter (calledAll cs) (Z.to_nat index) (_passes p)) p.

(** The calls that a render pass receives during [renderPassCycle]. *)
Definition cycleCalls (subPasses : list Z) : list RenderPassCall :=
  Start :: flat_map (fun j => [StartSubPass j; EndSubPass j]) subPasses ++ [End_].

(** What the begin/end commands never touch: the declarations, the number
    of runtime passes and the subpasses each was built with. *)
Definition sameDeclarations (p p' : WdeRenderPipelineInstance) : Prop :=
  _attachments p' = _attachments p /\
  _structure p' = _structure p /\
  rp_subPasses <$> _passes p' = rp_subPasses <$> _passes p.

(** The frame slots whose command buffer was begun, in order. *)
Definition begunSlots (tr : list Event) : list Z :=
  omap (fun ev => match ev with CmdBegin slot => Some slot | _ => None end) tr.

(** A command buffer that is not recording. *)
Definition idle (c : CommandBuffer) : Prop := isRunning c = false.

(** ** CoreInstance: the command pools of the threads *)

(** Modelled from the spec: CommandPool.hpp is not among the sources.  A
    command pool is created for the identity of the thread that asks for
    it; the pools are kept one per thread. *)
Definition ThreadId : Type := positive.

Record CommandPool : Type := { _threadID : ThreadId }.

(** [CoreInstance::getCommandPool]: the pool found for the thread, or else
    the pool emplaced for it; the result is the pool and the map after the
    call. *)
Definition getCommandPool (threadID : ThreadId)
    (_commandPools : gmap ThreadId CommandPool)
    : CommandPool * gmap ThreadId CommandPool :=
  match _commandPools !! threadID with
  | Some pool => (pool, _commandPools)
  | None =>
      let pool := {| _threadID := threadID |} in
      (pool, <[threadID := pool]> _commandPools)
  end.

(** ** core::Subject: the observers of a subject *)

Module Subject.
(** Modelled from the spec: Observer.hpp and Event.hpp are not among the
    sources.  A [std::shared_ptr<Observer>] is the identity of the observer
    it points to, or null; [onNotify] receives the event, and a notification
    is kept as the list of the deliveries it makes, in order. *)
Definition ObserverPtr : Type := option nat.
Definition nullptr : ObserverPtr := None.

Record t : Type := {
  _label : string;
  _observers : list ObserverPtr
}.

Definition new (label : string) : t := {| _label := label; _observers := [] |}.

Definition set_observers (observers : list ObserverPtr) (s : t) : t :=
  {| _label := _label s; _observers := observers |}.

Definition addObserver (observer : ObserverPtr) (pushTop : bool) (s : t) : t :=
  if pushTop
  then set_observers (observer :: _observers s) s
  else set_observers (_observers s ++ [observer]) s.

(** [erase(std::remove(begin, end, observer), end)]: the elements that are
    not equal to [observer] stay, in their order. *)
Definition removeObserver (observer : ObserverPtr) (s : t) : t :=
  set_observers (filter (fun o => o <> observer) (_observers s)) s.

Definition clearObservers (s : t) : t := set_observers [] s.

Definition getLabel (s : t) : string := _label s.

(** [notify]: the observers that are not null receive the event, in the
    order of the list. *)
Definition notify {E : Type} (event : E) (s : t) : list (nat * E) :=
  omap (fun obs : ObserverPtr => (fun o => (o, event)) <$> obs) (_observers s).

(** How many times an observer is registered. *)
Definition registrations (o : nat) (s : t) : nat :=
  length (filter (fun obs => obs = Some o) (_observers s)).
End Subject.

(** ** ShaderUtils: the stage of a shader file *)

Inductive VkShaderStageFlagBits : Type :=
  | VK_SHADER_STAGE_VERTEX_BIT
  | VK_SHADER_STAGE_TESSELLATION_CONTROL_BIT
  | VK_SHADER_STAGE_TESSELLATION_EVALUATION_BIT
  | VK_SHADER_STAGE_GEOMETRY_BIT
  | VK_SHADER_STAGE_FRAGMENT_BIT
  | VK_SHADER_STAGE_COMPUTE_BIT
  | VK_SHADER_STAGE_ALL.

Definition _shaderStagesExtensions : gmap string VkShaderStageFlagBits :=
  list_to_map
    [ ("comp", VK_SHADER_STAGE_COMPUTE_BIT);
      ("vert", VK_SHADER_STAGE_VERTEX_BIT);
      ("tesc", VK_SHADER_STAGE_TESSELLATION_CONTROL_BIT);
      ("tese", VK_SHADER_STAGE_TESSELLATION_EVALUATION_BIT);
      ("geom", VK_SHADER_STAGE_GEOMETRY_BIT);
      ("frag", VK_SHADER_STAGE_FRAGMENT_BIT) ].

Definition delimiter : string := ".".

(** [str.find(delimiter)], [str.substr(pos, n)] and [str.erase(pos, n)] of
    [std::string]. *)
Definition find (str sub : string) : option nat := String.index 0 sub str.

Definition substr (str : string) (pos n : nat) : string := String.substring pos n str.

Definition erase (str : string) (pos n : nat) : string :=
  String.append (String.substring 0 pos str)
    (String.substring (pos + n) (String.length str - (pos + n)) str).

(** The loop of [getShaderStage] on what is left of the file name. *)
Equations getShaderStageFrom (str : string) : VkShaderStageFlagBits
  by wf (String.length str) lt :=
  getShaderStageFrom str with Logic.inspect (find str delimiter) := {
    | exist _ (Some pos) Hfind with _shaderStagesExtensions !! substr str 0 pos := {
        | Some stage => stage
        | None => getShaderStageFrom (erase str 0 (pos + String.length delimiter)) }
    | exist _ None _ with _shaderStagesExtensions !! str := {
        | Some stage => stage
        | None => VK_SHADER_STAGE_ALL } }.
Next Obligation.
  assert (Hlen : forall s n m,
            (String.length (String.substring n m s) <= String.length s - n)%nat).
  { clear. induction s as [|c s IHs]; intros [|n] [|m]; cbn; try lia.
    - specialize (IHs 0%nat m). lia.
    - apply IHs.
    - apply IHs. }
  unfold find, delimiter in Hfind. unfold erase, delimiter.
  destruct str as [|a r]; [discriminate|].
  replace (0 + (pos + 1))%nat with (S pos) by lia.
  cbn [String.substring String.append String.length].
  pose proof (Hlen r pos (S (String.length r) - S pos)%nat) as Hle.
  assert (Happ : forall x : string, String.append EmptyString x = x) by reflexivity.
  rewrite Happ. lia.
Qed.

Definition getShaderStage (shaderFileName : string) : VkShaderStageFlagBits :=
  getShaderStageFrom shaderFileName.

(** The parts of a file name between its dots. *)
Fixpoint tokens (str : string) : list string :=
  match str with
  | EmptyString => [EmptyString]
  | String c rest =>
      if Ascii.eqb c "." then EmptyString :: tokens rest
      else match tokens rest with
           | token :: more => String c token :: more
           | [] => [String c EmptyString]
           end
  end.

(** The stage that the table gives for a token, if it is an extension. *)
Definition stageOfToken (token : string) : option VkShaderStageFlagBits :=
  _shaderStagesExtensions !! token.

(** ** The frame loop with a render override of the examples' shape *)

(** An engine on which a tick can run whose override renders the subpasses
    [js] of pass [index]: the pipeline is outside of any pass and has that
    pass with those subpasses, the frame index is inside the ring, and there
    is a command buffer and a fence for every frame of the ring. *)
Record loopReady (index : Z) (js : list Z) (e : Engine) : Prop := {
  ready_wellFormed : wellFormed (pipeline e);
  ready_outside : passState (pipeline e) = Outside;
  ready_index : 0 <= index <= Cxx.INT_MAX;
  ready_pass :
    exists pass,
      _passes (pipeline e) !! Z.to_nat index = Some pass /\
      Forall (fun j => 0 <= j < getSubPassesCount pass /\ j <= Cxx.INT_MAX) js;
  ready_frames : 0 < _currentFramesInFlightCount (renderer e) <= Cxx.INT_MAX;
  ready_frame :
    0 <= _currentFrame (renderer e) < _currentFramesInFlightCount (renderer e);
  ready_buffers :
    _currentFramesInFlightCount (renderer e)
      <= Z.of_nat (length (_commandBuffers (renderer e)));
  ready_fences :
    _currentFramesInFlightCount (renderer e)
      <= Z.of_nat (length (_inFlightFences (_swapchain (renderer e))))
}.

(** What the surface gives a tick that can return: an image for which the
    swapchain has a fence and both signals, and a successful present. *)
Definition presentable (sc : Swapchain) (input : TickInput) : Prop :=
  presentResult input = VK_SUCCESS /\
  0 <= nextImage input < Z.of_nat (length (_inFlightFences sc)) /\
  nextImage input < Z.of_nat (length (_imageAvailableSemaphores sc)) /\
  nextImage input < Z.of_nat (length (_renderFinishedSemaphores sc)).

Definition rendersCycle (index : Z) (js : list Z) (input : TickInput) : Prop :=
  forall slot, render input slot = runCalls (renderPassCycle index js).

(** ** TransformModule: the parent of a transform *)

Module Transform.
(** The transform modules live in a store, and a [TransformModule*] is an
    address of the store or null.  The declarations of TransformModule.hpp
    and GameObject.hpp are not among the sources: the id of the game object
    of a module is taken as the [uint32_t] that Chunk.cpp stores it as and
    that [static_cast<int>] converts, and [_childrenIDs] as the vector of
    [int] that Chunk.cpp iterates over. *)
Definition Ptr : Type := option positive.

Record t : Type := {
  _gameObjectID : Z;
  _parent : Ptr;
  _childrenIDs : list Z
}.

Abbreviation Store := (gmap positive t).

Definition set_parent (parent : Ptr) (m : t) : t :=
  {| _gameObjectID := _gameObjectID m; _parent := parent; _childrenIDs := _childrenIDs m |}.

Definition set_childrenIDs (children : list Z) (m : t) : t :=
  {| _gameObjectID := _gameObjectID m; _parent := _parent m; _childrenIDs := children |}.

(** [ids.erase(std::remove(ids.begin(), ids.end(), id), ids.end())], the
    [int] elements compared with the unsigned [id]. *)
Definition eraseID (id : Z) (m : t) : t :=
  set_childrenIDs (filter (fun child => Cxx.to_uint32 child <> id) (_childrenIDs m)) m.

(** [ids.push_back(static_cast<int>(id))] *)
Definition pushID (id : Z) (m : t) : t :=
  set_childrenIDs (_childrenIDs m ++ [Cxx.to_int id]) m.

(** [*p]: undefined for null and for an address that holds no module. *)
Definition deref (p : Ptr) : cmd Store t :=
  match p with
  | Some a => store <- gets (fun h : Store => h) ;; defined (store !! a)
  | None => undefined
  end.

(** [p->f()], where [f] changes the module in place. *)
Definition update (p : Ptr) (f : t -> t) : cmd Store unit :=
  _ <- deref p ;;
  match p with
  | Some a => modify (alter f a)
  | None => undefined
  end.

(** [this->setParent(parent)] *)
Definition setParent (this : positive) (parent : Ptr) : cmd Store unit :=
  self <- deref (Some this) ;;
  (if bool_decide (_parent self <> None)
   then update (_parent self) (eraseID (_gameObjectID self))
   else ret tt) ;;
  update (Some this) (set_parent parent) ;;
  self <- deref (Some this) ;;
  update (_parent self) (pushID (_gameObjectID self)).

(** The store after the module with game object [id] left the children of
    [old]. *)
Definition detach (id : Z) (old : Ptr) (h : Store) : Store :=
  match old with
  | Some a => alter (eraseID id) a h
  | None => h
  end.

Definition childrenOf (h : Store) (a : positive) : list Z :=
  match h !! a with
  | Some m => _childrenIDs m
  | None => []
  end.

Definition parentOf (h : Store) (a : positive) : Ptr :=
  match h !! a with
  | Some m => _parent m
  | None => None
  end.

Definition idOf (h : Store) (a : positive) : option Z :=
  _gameObjectID <$> h !! a.

(** The children of [a] after the module [self] moved under [parent]. *)
Definition movedChildren (self : t) (parent : positive) (a : positive)
    (children : list Z) : list Z :=
  (if decide (_parent self = Some a)
   then filter (fun child => Cxx.to_uint32 child <> _gameObjectID self) children
   else children)
  ++ (if decide (a = parent) then [_gameObjectID self] else []).

(** A scene whose parent pointers and children lists agree: a module is
    listed by its parent, a listed id is the id of a module with that
    parent, and the ids are those of distinct game objects that fit an
    [int]. *)
Record sceneTree (h : Store) : Prop := {
  tree_linked :
    forall a p id, parentOf h a = Some p -> idOf h a = Some id ->
      id ∈ childrenOf h p;
  tree_listed :
    forall p child, child ∈ childrenOf h p ->
      exists a, idOf h a = Some child /\ parentOf h a = Some p;
  tree_unique :
    forall a b id, idOf h a = Some id -> idOf h b = Some id -> a = b;
  tree_fit :
    forall a id, idOf h a = Some id -> 0 <= id <= Cxx.INT_MAX
}.

(** Three game objects, the first one a child of the second. *)
Definition exampleChild : t :=
  {| _gameObjectID := 10; _parent := Some 2%positive; _childrenIDs := [] |}.

Definition exampleParent : t :=
  {| _gameObjectID := 20; _parent := None; _childrenIDs := [10] |}.

Definition exampleOther : t :=
  {| _gameObjectID := 30; _parent := None; _childrenIDs := [] |}.

Definition exampleScene : Store :=
  <[1%positive := exampleChild]>
    (<[2%positive := exampleParent]> (<[3%positive := exampleOther]> ∅)).
End Transform.

(** * Properties *)

(** ** Machine integers and vectors *)

Lemma to_int_small (z : Z) : 0 <= z <= Cxx.INT_MAX -> Cxx.to_int z = z.
Proof.
  unfold Cxx.to_int, Cxx.INT_MAX, Cxx.UINT32_RANGE. intros Hz.
  rewrite Z.mod_small; lia.
Qed.

Lemma to_size_t_small (z : Z) : 0 <= z < Cxx.SIZE_RANGE -> Cxx.to_size_t z = z.
Proof. unfold Cxx.to_size_t. intros Hz. apply Z.mod_small. exact Hz. Qed.

Lemma to_uint32_small (z : Z) : 0 <= z < Cxx.UINT32_RANGE -> Cxx.to_uint32 z = z.
Proof. unfold Cxx.to_uint32. intros Hz. apply Z.mod_small. exact Hz. Qed.

Lemma to_size_t_minus_one : Cxx.to_size_t (-1) = Cxx.SIZE_RANGE - 1.
Proof. reflexivity. Qed.

Lemma at_in_range {A : Type} (v : list A) (i : Z) :
  0 <= i < Z.of_nat (length v) -> exists x, Cxx.at_ v i = Some x /\ v !! Z.to_nat i = Some x.
Proof.
  intros Hi. unfold Cxx.at_. rewrite bool_decide_eq_true_2 by exact Hi.
  destruct (lookup_lt_is_Some_2 v (Z.to_nat i)) as [x Hx]; [lia|].
  exists x. split; exact Hx.
Qed.

Lemma at_out_of_range {A : Type} (v : list A) (i : Z) :
  Z.of_nat (length v) <= i -> Cxx.at_ v i = None.
Proof.
  intros Hi. unfold Cxx.at_. rewrite bool_decide_eq_false_2; [reflexivity | lia].
Qed.

Lemma at_Some_lookup {A : Type} (v : list A) (i : Z) (x : A) :
  Cxx.at_ v i = Some x -> 0 <= i < Z.of_nat (length v) /\ v !! Z.to_nat i = Some x.
Proof.
  unfold Cxx.at_. case_bool_decide; [auto | discriminate].
Qed.

(** ** Calls on the runtime passes *)

Lemma callPass_in_range (p : WdeRenderPipelineInstance) (id : Z) (c : RenderPassCall) :
  0 <= id < Z.of_nat (length (_passes p)) ->
  Z.of_nat (length (_passes p)) < Cxx.SIZE_RANGE ->
  callPass id c p =
    Done tt (set_passes (alter (called c) (Z.to_nat id) (_passes p)) p).
Proof.
  intros Hid Hsize. unfold callPass, passAt, bind, gets, modify.
  rewrite to_size_t_small by lia.
  destruct (at_in_range (_passes p) id Hid) as (x & -> & _). reflexivity.
Qed.

Lemma callPass_outside (p : WdeRenderPipelineInstance) (c : RenderPassCall) :
  Z.of_nat (length (_passes p)) < Cxx.SIZE_RANGE ->
  callPass (-1) c p = Undefined.
Proof.
  intros Hsize. unfold callPass, passAt, bind, gets.
  rewrite to_size_t_minus_one, at_out_of_range by lia. reflexivity.
Qed.

Lemma lastCall_called (p : WdeRenderPipelineInstance) (id : Z) (c : RenderPassCall) :
  0 <= id < Z.of_nat (length (_passes p)) ->
  lastCall (set_passes (alter (called c) (Z.to_nat id) (_passes p)) p) id = Some c.
Proof.
  intros Hid.
  destruct (at_in_range (_passes p) id Hid) as (x & _ & Hx).
  unfold lastCall, Cxx.at_. simpl.
  rewrite length_alter, bool_decide_eq_true_2 by exact Hid.
  rewrite list_lookup_alter_eq, Hx. simpl. apply last_snoc.
Qed.

Ltac run :=
  unfold bind, gets, modify, throw_if, throw, ret; simpl.

(** ** beginRenderPass *)

Lemma beginRenderPass_active (p : WdeRenderPipelineInstance) (index : Z) :
  _currentRenderPassID p <> -1 ->
  beginRenderPass index p = Throw (PassAlreadyBegan index (_currentRenderPassID p)) p.
Proof.
  intros Hcur. unfold beginRenderPass. run.
  destruct (Z.eqb_spec (_currentRenderPassID p) (-1)); [contradiction | reflexivity].
Qed.

Lemma beginRenderPass_out_of_range (p : WdeRenderPipelineInstance) (index : Z) :
  _currentRenderPassID p = -1 ->
  Z.of_nat (length (_passes p)) <= index ->
  beginRenderPass index p = Throw (PassNotCreated index) p.
Proof.
  intros Hcur Hidx. unfold beginRenderPass. run. rewrite Hcur. simpl.
  destruct (Z.leb_spec (Z.of_nat (length (_passes p))) index); [reflexivity | lia].
Qed.

Lemma beginRenderPass_starts (p : WdeRenderPipelineInstance) (index : Z) :
  _currentRenderPassID p = -1 ->
  0 <= index < Z.of_nat (length (_passes p)) ->
  index <= Cxx.INT_MAX ->
  Z.of_nat (length (_passes p)) < Cxx.SIZE_RANGE ->
  beginRenderPass index p =
    Done tt (set_passes (alter (called Start) (Z.to_nat index) (_passes p))
               (set_currentRenderPassID index p)).
Proof.
  intros Hcur Hidx Hint Hsize. unfold beginRenderPass. run. rewrite Hcur. simpl.
  destruct (Z.leb_spec (Z.of_nat (length (_passes p))) index); [lia |].
  rewrite to_int_small by lia.
  rewrite (callPass_in_range (set_currentRenderPassID index p)) by (simpl; lia).
  reflexivity.
Qed.

Lemma beginRenderPass_returns_inv (p p' : WdeRenderPipelineInstance) (index : Z) :
  beginRenderPass index p = Done tt p' ->
  _currentRenderPassID p = -1 /\ _currentRenderPassID p' = Cxx.to_int index /\
  _currentRenderSubPassID p' = _currentRenderSubPassID p.
Proof.
  unfold beginRenderPass. run.
  destruct (Z.eqb_spec (_currentRenderPassID p) (-1)) as [Hcur|]; [|discriminate]. simpl.
  destruct (Z.leb_spec (Z.of_nat (length (_passes p))) index); [discriminate|].
  unfold callPass, passAt. run.
  destruct (Cxx.at_ (_passes p) (Cxx.to_size_t (Cxx.to_int index))); simpl; [|discriminate].
  intros [= <-]. auto.
Qed.

(** ** endRenderPass *)

Lemma endRenderPass_in_subpass (p : WdeRenderPipelineInstance) :
  _currentRenderSubPassID p <> -1 ->
  endRenderPass p =
    Throw (EndPassInSubPass (_currentRenderPassID p) (_currentRenderSubPassID p)) p.
Proof.
  intros Hsub. unfold endRenderPass. run.
  destruct (Z.eqb_spec (_currentRenderSubPassID p) (-1)); [contradiction | reflexivity].
Qed.

Lemma endRenderPass_ends (p : WdeRenderPipelineInstance) :
  _currentRenderSubPassID p = -1 ->
  0 <= _currentRenderPassID p < Z.of_nat (length (_passes p)) ->
  Z.of_nat (length (_passes p)) < Cxx.SIZE_RANGE ->
  endRenderPass p =
    Done tt (set_currentRenderPassID (-1)
               (set_passes (alter (called End_) (Z.to_nat (_currentRenderPassID p)) (_passes p)) p)).
Proof.
  intros Hsub Hcur Hsize. unfold endRenderPass. run. rewrite Hsub. simpl.
  rewrite callPass_in_range by assumption. reflexivity.
Qed.

Lemma endRenderPass_outside (p : WdeRenderPipelineInstance) :
  _currentRenderPassID p = -1 ->
  _currentRenderSubPassID p = -1 ->
  Z.of_nat (length (_passes p)) < Cxx.SIZE_RANGE ->
  endRenderPass p = Undefined.
Proof.
  intros Hcur Hsub Hsize. unfold endRenderPass. run. rewrite Hsub, Hcur. simpl.
  rewrite callPass_outside by assumption. reflexivity.
Qed.

(** ** beginRenderSubPass *)

Lemma beginRenderSubPass_outside (p : WdeRenderPipelineInstance) (index : Z) :
  _currentRenderPassID p = -1 ->
  beginRenderSubPass index p = Throw (SubPassOutsidePass index) p.
Proof.
  intros Hcur. unfold beginRenderSubPass. run. rewrite Hcur. reflexivity.
Qed.

Lemma beginRenderSubPass_active (p : WdeRenderPipelineInstance) (index : Z) :
  _currentRenderPassID p <> -1 ->
  _currentRenderSubPassID p <> -1 ->
  beginRenderSubPass index p =
    Throw (SubPassAlreadyBegan index (_currentRenderSubPassID p) (_currentRenderPassID p)) p.
Proof.
  intros Hcur Hsub. unfold beginRenderSubPass. run.
  destruct (Z.eqb_spec (_currentRenderPassID p) (-1)); [contradiction|]. simpl.
  destruct (Z.eqb_spec (_currentRenderSubPassID p) (-1)); [contradiction | reflexivity].
Qed.

Lemma beginRenderSubPass_checks (p : WdeRenderPipelineInstance) (index : Z) (pass : RenderPass) :
  0 <= _currentRenderPassID p < Z.of_nat (length (_passes p)) ->
  Z.of_nat (length (_passes p)) < Cxx.SIZE_RANGE ->
  _currentRenderSubPassID p = -1 ->
  _passes p !! Z.to_nat (_currentRenderPassID p) = Some pass ->
  beginRenderSubPass index p =
    if getSubPassesCount pass <=? index then Throw (SubPassNotCreated index) p
    else Done tt (set_passes
                    (alter (called (StartSubPass index))
                       (Z.to_nat (_currentRenderPassID p)) (_passes p))
                    (set_currentRenderSubPassID (Cxx.to_int index) p)).
Proof.
  intros Hcur Hsize Hsub Hpass. unfold beginRenderSubPass. run.
  destruct (Z.eqb_spec (_currentRenderPassID p) (-1)); [lia|]. simpl.
  rewrite Hsub. simpl. unfold passAt. run.
  rewrite to_size_t_small by lia.
  destruct (at_in_range (_passes p) _ Hcur) as (x & -> & Hx). simpl.
  assert (x = pass) as -> by congruence.
  destruct (getSubPassesCount pass <=? index); simpl; [reflexivity|].
  rewrite (callPass_in_range (set_currentRenderSubPassID _ p)) by (simpl; lia).
  reflexivity.
Qed.

(** ** endRenderSubPass *)

Lemma endRenderSubPass_outside (p : WdeRenderPipelineInstance) :
  _currentRenderPassID p = -1 ->
  endRenderSubPass p = Throw (EndSubPassOutsidePass (_currentRenderSubPassID p)) p.
Proof.
  intros Hcur. unfold endRenderSubPass. run. rewrite Hcur. reflexivity.
Qed.

Lemma endRenderSubPass_ends (p : WdeRenderPipelineInstance) :
  0 <= _currentRenderPassID p < Z.of_nat (length (_passes p)) ->
  Z.of_nat (length (_passes p)) < Cxx.SIZE_RANGE ->
  endRenderSubPass p =
    Done tt (set_currentRenderSubPassID (-1)
               (set_passes
                  (alter (called (EndSubPass (_currentRenderSubPassID p)))
                     (Z.to_nat (_currentRenderPassID p)) (_passes p)) p)).
Proof.
  intros Hcur Hsize. unfold endRenderSubPass. run.
  destruct (Z.eqb_spec (_currentRenderPassID p) (-1)); [lia|]. simpl.
  rewrite callPass_in_range by assumption. reflexivity.
Qed.

Lemma endRenderSubPass_never_throws_inside (p : WdeRenderPipelineInstance) :
  _currentRenderPassID p <> -1 -> threw (endRenderSubPass p) = None.
Proof.
  intros Hcur. unfold endRenderSubPass. run.
  destruct (Z.eqb_spec (_currentRenderPassID p) (-1)); [contradiction|]. simpl.
  unfold callPass, passAt. run.
  destruct (Cxx.at_ _ _); reflexivity.
Qed.

(** ** The protocol states *)

Lemma passState_Outside (p : WdeRenderPipelineInstance) :
  passState p = Outside <-> _currentRenderPassID p = -1.
Proof.
  unfold passState.
  destruct (Z.eqb_spec (_currentRenderPassID p) (-1)); [tauto|].
  destruct (_currentRenderSubPassID p =? -1); split; intros; congruence.
Qed.

Lemma passState_InPass (p : WdeRenderPipelineInstance) (id : Z) :
  passState p = InPass id <->
  _currentRenderPassID p = id /\ id <> -1 /\ _currentRenderSubPassID p = -1.
Proof.
  unfold passState.
  destruct (Z.eqb_spec (_currentRenderPassID p) (-1)).
  - split; [discriminate | lia].
  - destruct (Z.eqb_spec (_currentRenderSubPassID p) (-1)).
    + split; [intros [= <-]; auto | intros (-> & _ & _); reflexivity].
    + split; [discriminate | tauto].
Qed.

Lemma passState_InPassAndSubpass (p : WdeRenderPipelineInstance) (id sub : Z) :
  passState p = InPassAndSubpass id sub <->
  _currentRenderPassID p = id /\ id <> -1 /\
  _currentRenderSubPassID p = sub /\ sub <> -1.
Proof.
  unfold passState.
  destruct (Z.eqb_spec (_currentRenderPassID p) (-1)).
  - split; [discriminate | lia].
  - destruct (Z.eqb_spec (_currentRenderSubPassID p) (-1)).
    + split; [discriminate | lia].
    + split; [intros [= <- <-]; auto | intros (-> & _ & -> & _); reflexivity].
Qed.

Ltac concrete_wellFormed := split; vm_compute; intros; solve [congruence | split; congruence].
Ltac in_uint32 := unfold Cxx.is_uint32, Cxx.UINT32_RANGE; lia.

(** ** The begin/end protocol *)

(** C5: [beginRenderPass index] throws the already-active error when a pass
    is active; otherwise it throws the out-of-range error when [index] is not
    below the number of runtime passes; otherwise it goes from [Outside] to
    [InPass index] and starts the runtime pass at [index].  Beginning pass 0
    twice in a row throws the already-active error the second time. *)
Theorem beginRenderPass_protocol (p : WdeRenderPipelineInstance) (index : Z) :
  wellFormed p ->
  Cxx.is_uint32 index ->
  (passState p <> Outside ->
     exists e, beginRenderPass index p = Throw e p /\ kind e = AlreadyActiveError) /\
  (passState p = Outside ->
   Z.of_nat (length (_passes p)) <= index ->
     exists e, beginRenderPass index p = Throw e p /\ kind e = OutOfRangeError) /\
  (passState p = Outside ->
   index < Z.of_nat (length (_passes p)) ->
   index <= Cxx.INT_MAX ->
     exists p', beginRenderPass index p = Done tt p' /\
                passState p' = InPass index /\
                lastCall p' index = Some Start /\
                length (_passes p') = length (_passes p)) /\
  (forall p1, beginRenderPass 0 p = Done tt p1 ->
     exists e, beginRenderPass 0 p1 = Throw e p1 /\ kind e = AlreadyActiveError).
Proof.
  intros Hwf [Hlo Hhi]. repeat split.
  - rewrite passState_Outside. intros Hcur.
    eexists. split; [apply beginRenderPass_active; exact Hcur | reflexivity].
  - rewrite passState_Outside. intros Hcur Hge.
    eexists. split; [apply beginRenderPass_out_of_range; assumption | reflexivity].
  - rewrite passState_Outside. intros Hcur Hlt Hint.
    eexists. split; [apply beginRenderPass_starts; auto using wf_size; lia|].
    split; [|split].
    + apply passState_InPass. simpl. repeat split; [lia | apply (wf_outside p Hwf Hcur)].
    + apply (lastCall_called (set_currentRenderPassID index p)). simpl. lia.
    + simpl. apply length_alter.
  - intros p1 Hbegin.
    apply beginRenderPass_returns_inv in Hbegin as (_ & Hcur1 & _).
    eexists. split; [apply beginRenderPass_active | reflexivity].
    rewrite Hcur1. vm_compute. discriminate.
Qed.

Lemma beginRenderPass_protocol_witness :
  (exists p', beginRenderPass 0 example02_pipeline = Done tt p' /\
              passState p' = InPass 0 /\
              lastCall p' 0 = Some Start /\
              length (_passes p') = length (_passes example02_pipeline)) /\
  (exists e, beginRenderPass 0 example02_inPass = Throw e example02_inPass /\
             kind e = AlreadyActiveError).
Proof.
  assert (Hwf : wellFormed example02_pipeline) by concrete_wellFormed.
  assert (Hidx : Cxx.is_uint32 0) by in_uint32.
  destruct (beginRenderPass_protocol example02_pipeline 0 Hwf Hidx)
    as (_ & _ & Hstart & Htwice).
  split.
  - apply Hstart; [reflexivity | reflexivity | vm_compute; discriminate].
  - apply Htwice. reflexivity.
Defined.

(** C6: [beginRenderSubPass index] throws the no-active-pass error outside of
    a pass; otherwise the already-active error when a subpass is active;
    otherwise the out-of-range error when [index] is not below the subpass
    count of the active pass; otherwise it goes from [InPass] to
    [InPassAndSubpass] with [index] the active subpass. *)
Theorem beginRenderSubPass_protocol (p : WdeRenderPipelineInstance) (index : Z) :
  wellFormed p ->
  Cxx.is_uint32 index ->
  (passState p = Outside ->
     exists e, beginRenderSubPass index p = Throw e p /\ kind e = NoActivePassError) /\
  (forall id sub, passState p = InPassAndSubpass id sub ->
     exists e, beginRenderSubPass index p = Throw e p /\ kind e = AlreadyActiveError) /\
  (forall id pass, passState p = InPass id ->
   _passes p !! Z.to_nat id = Some pass ->
   getSubPassesCount pass <= index ->
     exists e, beginRenderSubPass index p = Throw e p /\ kind e = OutOfRangeError) /\
  (forall id pass, passState p = InPass id ->
   _passes p !! Z.to_nat id = Some pass ->
   index < getSubPassesCount pass ->
   index <= Cxx.INT_MAX ->
     exists p', beginRenderSubPass index p = Done tt p' /\
                passState p' = InPassAndSubpass id index /\
                lastCall p' id = Some (StartSubPass index)).
Proof.
  intros Hwf [Hlo Hhi]. repeat split.
  - rewrite passState_Outside. intros Hcur.
    eexists. split; [apply beginRenderSubPass_outside; exact Hcur | reflexivity].
  - intros id sub (<- & Hid & <- & Hsub)%passState_InPassAndSubpass.
    eexists. split; [apply beginRenderSubPass_active; assumption | reflexivity].
  - intros id pass (<- & Hid & Hsub)%passState_InPass Hpass Hge.
    exists (SubPassNotCreated index). split; [|reflexivity].
    rewrite (beginRenderSubPass_checks p index pass);
      auto using wf_size, wf_pass.
    destruct (Z.leb_spec (getSubPassesCount pass) index); [reflexivity | lia].
  - intros id pass (<- & Hid & Hsub)%passState_InPass Hpass Hlt Hint.
    pose proof (wf_pass p Hwf Hid) as Hrange.
    eexists. split; [|split].
    + rewrite (beginRenderSubPass_checks p index pass);
        auto using wf_size.
      destruct (Z.leb_spec (getSubPassesCount pass) index); [lia | reflexivity].
    + apply passState_InPassAndSubpass. simpl.
      rewrite to_int_small by lia. repeat split; [assumption | lia].
    + apply (lastCall_called (set_currentRenderSubPassID _ p)). simpl. exact Hrange.
Qed.

Lemma beginRenderSubPass_protocol_witness :
  exists p', beginRenderSubPass 1 example02_inPass = Done tt p' /\
             passState p' = InPassAndSubpass 0 1 /\
             lastCall p' 0 = Some (StartSubPass 1).
Proof.
  assert (Hwf : wellFormed example02_inPass) by concrete_wellFormed.
  assert (Hidx : Cxx.is_uint32 1) by in_uint32.
  destruct (beginRenderSubPass_protocol example02_inPass 1 Hwf Hidx) as (_ & _ & _ & Hstart).
  eapply Hstart; [reflexivity | reflexivity | vm_compute; reflexivity | vm_compute; discriminate].
Defined.

(** C7: with a pass active, [endRenderPass] throws, and then the
    subpass-still-active error, exactly when a subpass is active; with no
    subpass active it ends the pass and goes from [InPass] to [Outside].
    When it threw, it returns once [endRenderSubPass] has returned. *)
Theorem endRenderPass_protocol (p : WdeRenderPipelineInstance) :
  wellFormed p ->
  passState p <> Outside ->
  ((exists e, endRenderPass p = Throw e p /\ kind e = SubpassStillActiveError) <->
   _currentRenderSubPassID p <> -1) /\
  (is_Some (threw (endRenderPass p)) <-> _currentRenderSubPassID p <> -1) /\
  (forall id, passState p = InPass id ->
     exists p', endRenderPass p = Done tt p' /\
                passState p' = Outside /\
                lastCall p' id = Some End_) /\
  (forall id sub, passState p = InPassAndSubpass id sub ->
     exists p1 p2, endRenderSubPass p = Done tt p1 /\
                   passState p1 = InPass id /\
                   endRenderPass p1 = Done tt p2 /\
                   passState p2 = Outside).
Proof.
  intros Hwf Hin. rewrite passState_Outside in Hin.
  pose proof (wf_pass p Hwf Hin) as Hrange.
  pose proof (wf_size p Hwf) as Hsize.
  assert (Hends : _currentRenderSubPassID p = -1 ->
                  endRenderPass p = Done tt (set_currentRenderPassID (-1)
                    (set_passes (alter (called End_) (Z.to_nat (_currentRenderPassID p))
                                   (_passes p)) p)))
    by (intros; apply endRenderPass_ends; assumption).
  split; [|split; [|split]].
  - split.
    + intros (e & Hthrow & _) Hsub. rewrite Hends in Hthrow by exact Hsub. discriminate.
    + intros Hsub. eexists. split; [apply endRenderPass_in_subpass; exact Hsub | reflexivity].
  - split.
    + intros [e Hthrow] Hsub. rewrite Hends in Hthrow by exact Hsub. discriminate.
    + intros Hsub. rewrite endRenderPass_in_subpass by exact Hsub. eexists. reflexivity.
  - intros id (<- & Hid & Hsub)%passState_InPass.
    eexists. split; [apply Hends; exact Hsub|]. split.
    + apply passState_Outside. reflexivity.
    + apply (lastCall_called p). exact Hrange.
  - intros id sub (<- & Hid & <- & Hsub)%passState_InPassAndSubpass.
    do 2 eexists. split; [apply endRenderSubPass_ends; assumption|]. split; [|split].
    + apply passState_InPass. simpl. auto.
    + apply endRenderPass_ends; simpl; rewrite ?length_alter; auto.
    + apply passState_Outside. reflexivity.
Qed.

Lemma endRenderPass_protocol_witness :
  exists p1 p2, endRenderSubPass example02_inSubPass = Done tt p1 /\
                passState p1 = InPass 0 /\
                endRenderPass p1 = Done tt p2 /\
                passState p2 = Outside.
Proof.
  assert (Hwf : wellFormed example02_inSubPass) by concrete_wellFormed.
  assert (Hin : passState example02_inSubPass <> Outside) by (vm_compute; discriminate).
  destruct (endRenderPass_protocol example02_inSubPass Hwf Hin) as (_ & _ & _ & Hafter).
  apply (Hafter 0 0). reflexivity.
Defined.

(** C8: [endRenderSubPass] throws exactly when no pass is active, and what it
    throws is the no-active-pass error; with a pass active, whether or not a
    subpass is active, it throws nothing and leaves the pass active with no
    active subpass. *)
Theorem endRenderSubPass_protocol (p : WdeRenderPipelineInstance) :
  (is_Some (threw (endRenderSubPass p)) <-> passState p = Outside) /\
  (forall e, threw (endRenderSubPass p) = Some e -> kind e = NoActivePassError) /\
  (wellFormed p ->
   passState p <> Outside ->
     exists p', endRenderSubPass p = Done tt p' /\
                passState p' = InPass (_currentRenderPassID p)) /\
  (wellFormed p ->
   forall id, passState p = InPass id ->
     exists p', endRenderSubPass p = Done tt p' /\ passState p' = InPass id).
Proof.
  assert (Hinside : wellFormed p -> _currentRenderPassID p <> -1 ->
            exists p', endRenderSubPass p = Done tt p' /\
                       passState p' = InPass (_currentRenderPassID p)).
  { intros Hwf Hcur. eexists. split.
    - apply endRenderSubPass_ends; auto using wf_size, wf_pass.
    - apply passState_InPass. simpl. auto. }
  rewrite passState_Outside. split; [|split; [|split]].
  - split.
    + intros [e Hthrow].
      destruct (Z.eq_dec (_currentRenderPassID p) (-1)) as [|Hcur]; [assumption|].
      rewrite endRenderSubPass_never_throws_inside in Hthrow by exact Hcur. discriminate.
    + intros Hcur. rewrite endRenderSubPass_outside by exact Hcur. eexists. reflexivity.
  - intros e Hthrow.
    destruct (Z.eq_dec (_currentRenderPassID p) (-1)) as [Hcur|Hcur].
    + rewrite endRenderSubPass_outside in Hthrow by exact Hcur.
      injection Hthrow as <-. reflexivity.
    + rewrite endRenderSubPass_never_throws_inside in Hthrow by exact Hcur. discriminate.
  - exact Hinside.
  - intros Hwf id (<- & Hid & _)%passState_InPass. apply Hinside; assumption.
Qed.

Lemma endRenderSubPass_protocol_witness :
  exists p', endRenderSubPass example02_inPass = Done tt p' /\ passState p' = InPass 0.
Proof.
  assert (Hwf : wellFormed example02_inPass) by concrete_wellFormed.
  destruct (endRenderSubPass_protocol example02_inPass) as (_ & _ & _ & Hin).
  apply (Hin Hwf 0). reflexivity.
Defined.

(** C10: [endRenderPass] does not check that a pass is active.  Called
    outside of a pass it throws nothing: it indexes the pass list with the
    id -1, which is no element of the list, so the call has no defined
    result; [beginRenderSubPass] and [endRenderSubPass] reject the same state
    with the no-active-pass error. *)
Theorem endRenderPass_outside_unchecked (p : WdeRenderPipelineInstance) :
  wellFormed p ->
  passState p = Outside ->
  threw (endRenderPass p) = None /\
  Cxx.at_ (_passes p) (Cxx.to_size_t (_currentRenderPassID p)) = None /\
  endRenderPass p = Undefined /\
  (exists e, endRenderSubPass p = Throw e p /\ kind e = NoActivePassError) /\
  (forall index, exists e, beginRenderSubPass index p = Throw e p /\ kind e = NoActivePassError).
Proof.
  intros Hwf Hcur%passState_Outside.
  pose proof (wf_outside p Hwf Hcur) as Hsub.
  pose proof (wf_size p Hwf) as Hsize.
  assert (Hundef : endRenderPass p = Undefined)
    by (apply endRenderPass_outside; assumption).
  split; [|split; [|split; [|split]]].
  - rewrite Hundef. reflexivity.
  - rewrite Hcur, to_size_t_minus_one. apply at_out_of_range. lia.
  - exact Hundef.
  - eexists. split; [apply endRenderSubPass_outside; exact Hcur | reflexivity].
  - intros index. eexists. split; [apply beginRenderSubPass_outside; exact Hcur | reflexivity].
Qed.

Lemma endRenderPass_outside_unchecked_witness :
  threw (endRenderPass example02_pipeline) = None /\
  endRenderPass example02_pipeline = Undefined.
Proof.
  assert (Hwf : wellFormed example02_pipeline) by concrete_wellFormed.
  assert (Hout : passState example02_pipeline = Outside) by reflexivity.
  destruct (endRenderPass_outside_unchecked example02_pipeline Hwf Hout)
    as (Hthrew & _ & Hundef & _).
  split; assumption.
Defined.

(** ** setStructure: the walk over the declared structure *)

Lemma seqZ_of_nat_S (j : Z) (n : nat) :
  seqZ j (Z.of_nat (S n)) = j :: seqZ (j + 1) (Z.of_nat n).
Proof.
  rewrite seqZ_cons by lia. f_equal. f_equal; lia.
Qed.

Lemma set_passes_twice (ps qs : list RenderPass) (p : WdeRenderPipelineInstance) :
  set_passes qs (set_passes ps p) = set_passes qs p.
Proof. reflexivity. Qed.

Lemma next_iterator (it : Z) (n : nat) :
  0 <= it -> it + Z.of_nat (S n) <= Cxx.UINT32_RANGE ->
  n <> O -> Cxx.to_uint32 (it + 1) = it + 1.
Proof. intros. apply to_uint32_small. lia. Qed.

Lemma checkSubPasses_contiguous (subPasses : list RenderSubPassStructure) :
  forall (it j : Z) (p : WdeRenderPipelineInstance),
    0 <= j ->
    j + Z.of_nat (length subPasses) <= Cxx.UINT32_RANGE ->
    subPassIDs subPasses = seqZ j (Z.of_nat (length subPasses)) ->
    checkSubPasses it j subPasses p = Done tt p.
Proof.
  induction subPasses as [|sub rest IH]; intros it j p Hj Hfit Hids; [reflexivity|].
  cbn [length] in Hfit, Hids. rewrite seqZ_of_nat_S in Hids.
  injection Hids as Hid Hrest.
  cbn [checkSubPasses]. run. rewrite Hid, Z.eqb_refl. simpl.
  destruct rest as [|sub' rest']; [reflexivity|].
  rewrite (next_iterator j (length (sub' :: rest'))) by (cbn [length] in *; lia).
  apply IH; [lia | cbn [length] in *; lia | exact Hrest].
Qed.

Lemma checkSubPasses_gap (pre : list RenderSubPassStructure) :
  forall (sub : RenderSubPassStructure) (post : list RenderSubPassStructure)
         (it j : Z) (p : WdeRenderPipelineInstance),
    0 <= j ->
    j + Z.of_nat (length pre) < Cxx.UINT32_RANGE ->
    subPassIDs pre = seqZ j (Z.of_nat (length pre)) ->
    _subpassID sub <> j + Z.of_nat (length pre) ->
    checkSubPasses it j (pre ++ sub :: post) p =
      Throw (MissingRenderSubPass (j + Z.of_nat (length pre)) it) p.
Proof.
  induction pre as [|a pre IH]; intros sub post it j p Hj Hfit Hids Hgap.
  - cbn [length Z.of_nat] in *. rewrite Z.add_0_r in *.
    cbn [app checkSubPasses]. run.
    destruct (Z.eqb_spec j (_subpassID sub)); [congruence | reflexivity].
  - cbn [length] in Hfit, Hids, Hgap |- *. rewrite seqZ_of_nat_S in Hids.
    injection Hids as Hid Hrest.
    cbn [app checkSubPasses]. run. rewrite Hid, Z.eqb_refl. simpl.
    rewrite to_uint32_small by lia.
    rewrite (IH sub post it (j + 1) p) by (auto; lia).
    do 2 f_equal. lia.
Qed.

(** The runtime passes that a structure materializes. *)
Lemma createPasses_contiguous (structure : list RenderPassStructure) :
  forall (it : Z) (p : WdeRenderPipelineInstance),
    0 <= it ->
    it + Z.of_nat (length structure) <= Cxx.UINT32_RANGE ->
    Forall (fun str => countable (_subPasses str)) structure ->
    contiguousFrom it structure ->
    createPasses it structure p =
      Done tt (set_passes
                 (_passes p ++
                  ((fun str => makeRenderPass (_attachments p) (_subPasses str)) <$> structure))
                 p).
Proof.
  induction structure as [|str rest IH]; intros it p Hit Hfit Hsubs [Hids Hcont].
  - cbn [createPasses fmap list_fmap]. unfold ret. rewrite app_nil_r.
    destruct p; reflexivity.
  - cbn [length] in Hfit, Hids. unfold passIDs in Hids. rewrite fmap_cons, seqZ_of_nat_S in Hids.
    injection Hids as Hid Hrest.
    apply Forall_cons in Hsubs as [Hsub Hsubs]. apply Forall_cons in Hcont as [Hc Hcont].
    cbn [createPasses]. run. rewrite Hid, Z.eqb_refl. simpl.
    rewrite checkSubPasses_contiguous by (auto; unfold countable in Hsub; lia). simpl.
    destruct rest as [|str' rest'].
    + reflexivity.
    + rewrite (next_iterator it (length (str' :: rest'))) by (cbn [length] in *; lia).
      rewrite IH; [|lia | cbn [length] in *; lia | exact Hsubs | split; assumption].
      simpl. rewrite <- app_assoc. reflexivity.
Qed.

(** A walk that stops at the entry after [pre] has materialized [pre]. *)
Lemma createPasses_stops (pre : list RenderPassStructure) :
  forall (str : RenderPassStructure) (post : list RenderPassStructure)
         (it : Z) (p : WdeRenderPipelineInstance) (e : WdeException),
    0 <= it ->
    it + Z.of_nat (length pre) < Cxx.UINT32_RANGE ->
    Forall (fun str => countable (_subPasses str)) pre ->
    contiguousFrom it pre ->
    (forall q, createPasses (it + Z.of_nat (length pre)) (str :: post) q = Throw e q) ->
    createPasses it (pre ++ str :: post) p =
      Throw e (set_passes
                 (_passes p ++
                  ((fun str => makeRenderPass (_attachments p) (_subPasses str)) <$> pre))
                 p).
Proof.
  induction pre as [|a pre IH]; intros str post it p e Hit Hfit Hsubs [Hids Hcont] Hstop.
  - cbn [length Z.of_nat] in Hstop. rewrite Z.add_0_r in Hstop.
    cbn [app]. rewrite Hstop. cbn [fmap list_fmap]. rewrite app_nil_r.
    destruct p; reflexivity.
  - cbn [length] in Hfit, Hids, Hstop. unfold passIDs in Hids.
    rewrite fmap_cons, seqZ_of_nat_S in Hids. injection Hids as Hid Hrest.
    apply Forall_cons in Hsubs as [Hsub Hsubs]. apply Forall_cons in Hcont as [Hc Hcont].
    cbn [app createPasses]. run. rewrite Hid, Z.eqb_refl. simpl.
    rewrite checkSubPasses_contiguous by (auto; unfold countable in Hsub; lia). simpl.
    rewrite to_uint32_small by (unfold Cxx.UINT32_RANGE in *; lia).
    rewrite (IH str post (it + 1) _ e); [|lia | lia | exact Hsubs | split; assumption |].
    + simpl. rewrite <- app_assoc. reflexivity.
    + intros q. rewrite <- Hstop. f_equal. lia.
Qed.

Lemma createPasses_pass_gap (str : RenderPassStructure) (post : list RenderPassStructure)
    (it : Z) (q : WdeRenderPipelineInstance) :
  _passID str <> it ->
  createPasses it (str :: post) q = Throw (MissingRenderPass it) q.
Proof.
  intros Hgap. cbn [createPasses]. run.
  destruct (Z.eqb_spec it (_passID str)); [congruence | reflexivity].
Qed.

Lemma createPasses_subpass_gap (str : RenderPassStructure) (post : list RenderPassStructure)
    (spre : list RenderSubPassStructure) (sub : RenderSubPassStructure)
    (spost : list RenderSubPassStructure) (it : Z) (q : WdeRenderPipelineInstance) :
  _passID str = it ->
  _subPasses str = spre ++ sub :: spost ->
  Z.of_nat (length spre) < Cxx.UINT32_RANGE ->
  contiguousSubPasses spre ->
  _subpassID sub <> Z.of_nat (length spre) ->
  createPasses it (str :: post) q =
    Throw (MissingRenderSubPass (Z.of_nat (length spre)) it) q.
Proof.
  intros Hid Hsubs Hfit Hcont Hgap. cbn [createPasses]. run.
  rewrite Hid, Z.eqb_refl. simpl. rewrite Hsubs.
  rewrite (checkSubPasses_gap spre sub spost it 0 q) by (auto; lia). reflexivity.
Qed.

Lemma checkSubPasses_throws_gap (subPasses : list RenderSubPassStructure) :
  forall (it j : Z) (p p' : WdeRenderPipelineInstance) (e : WdeException),
    checkSubPasses it j subPasses p = Throw e p' -> kind e = StructureGapError.
Proof.
  induction subPasses as [|sub rest IH]; intros it j p p' e; [discriminate|].
  cbn [checkSubPasses]. run.
  destruct (j =? _subpassID sub); simpl; [apply IH | intros [= <- _]; reflexivity].
Qed.

Lemma createPasses_throws_gap (structure : list RenderPassStructure) :
  forall (it : Z) (p p' : WdeRenderPipelineInstance) (e : WdeException),
    createPasses it structure p = Throw e p' -> kind e = StructureGapError.
Proof.
  induction structure as [|str rest IH]; intros it p p' e; [discriminate|].
  cbn [createPasses]. run.
  destruct (it =? _passID str); simpl; [|intros [= <- _]; reflexivity].
  destruct (checkSubPasses it 0 (_subPasses str) p) as [[] q|e' q|] eqn:Hcheck; simpl.
  - apply IH.
  - intros [= <- _]. eapply checkSubPasses_throws_gap. exact Hcheck.
  - discriminate.
Qed.

Lemma setStructure_no_attachments (structure : list RenderPassStructure)
    (p : WdeRenderPipelineInstance) :
  _attachments p = [] ->
  setStructure structure p = Throw NoAttachments (set_structure structure p).
Proof.
  intros Hempty. unfold setStructure. run. rewrite Hempty. reflexivity.
Qed.

Lemma setStructure_attachments (structure : list RenderPassStructure)
    (p : WdeRenderPipelineInstance) :
  _attachments p <> [] ->
  setStructure structure p = createPasses 0 structure (set_structure structure p).
Proof.
  intros Hsome. unfold setStructure. run.
  rewrite bool_decide_eq_false_2 by exact Hsome. reflexivity.
Qed.

Lemma countable_prefix {A : Type} (pre : list A) (x : A) (post : list A) :
  countable (pre ++ x :: post) -> Z.of_nat (length pre) < Cxx.UINT32_RANGE.
Proof.
  unfold countable. rewrite length_app. cbn [length]. lia.
Qed.

(** C3: [setStructure] walks the passes in order.  The first pass whose id
    is not its position [i] makes it throw the structure-gap error that names
    [i]; the first subpass whose id is not its position [j] in its pass makes
    it throw the structure-gap error that names [j] and the pass; a structure
    whose pass ids are 0..n-1 and whose subpass ids are 0..m-1 in each pass
    makes it return, having appended n runtime passes, in order, each with
    the subpasses declared for it. *)
Theorem setStructure_walk (p : WdeRenderPipelineInstance)
    (structure : list RenderPassStructure) :
  _attachments p <> [] ->
  countableStructure structure ->
  (forall pre str post,
     structure = pre ++ str :: post ->
     contiguous pre ->
     _passID str <> Z.of_nat (length pre) ->
     exists e p', setStructure structure p = Throw e p' /\
                  e = MissingRenderPass (Z.of_nat (length pre)) /\
                  kind e = StructureGapError /\
                  what e = Some ("Missing render pass with ID = " +:+
                                 pretty (Z.of_nat (length pre)) +:+ ".")) /\
  (forall pre str post spre sub spost,
     structure = pre ++ str :: post ->
     contiguous pre ->
     _passID str = Z.of_nat (length pre) ->
     _subPasses str = spre ++ sub :: spost ->
     contiguousSubPasses spre ->
     _subpassID sub <> Z.of_nat (length spre) ->
     exists e p', setStructure structure p = Throw e p' /\
                  e = MissingRenderSubPass (Z.of_nat (length spre)) (Z.of_nat (length pre)) /\
                  kind e = StructureGapError /\
                  what e = Some ("Missing render subpass with ID = " +:+
                                 pretty (Z.of_nat (length spre)) +:+
                                 " in render pass with ID = " +:+
                                 pretty (Z.of_nat (length pre)) +:+ ".")) /\
  (contiguous structure ->
     exists p', setStructure structure p = Done tt p' /\
                _passes p' =
                  _passes p ++
                  ((fun str => makeRenderPass (_attachments p) (_subPasses str)) <$> structure) /\
                (_passes p = [] -> length (_passes p') = length structure) /\
                (forall (i : nat) str, structure !! i = Some str ->
                   exists pass, _passes p' !! (length (_passes p) + i)%nat = Some pass /\
                                rp_subPasses pass = _subPasses str /\
                                getSubPassesCount pass = Z.of_nat (length (_subPasses str)))).
Proof.
  intros Hatt [Hfit Hsubs]. rewrite (setStructure_attachments structure p Hatt).
  split; [|split].
  - intros pre str post -> Hpre Hgap.
    apply Forall_app in Hsubs as [Hsubs _]. apply countable_prefix in Hfit.
    eexists _, _. split; [|split; [reflexivity | split; reflexivity]].
    apply createPasses_stops; auto; [lia|].
    intros q. apply createPasses_pass_gap. exact Hgap.
  - intros pre str post spre sub spost -> Hpre Hid Hsub Hspre Hgap.
    apply Forall_app in Hsubs as [Hsubs [Hstr _]%Forall_cons].
    apply countable_prefix in Hfit.
    rewrite Hsub in Hstr. apply countable_prefix in Hstr.
    eexists _, _. split; [|split; [reflexivity | split; reflexivity]].
    apply createPasses_stops; auto; [lia|].
    intros q. eapply createPasses_subpass_gap; eauto.
  - intros Hcont. eexists. split; [|split; [|split]].
    + apply createPasses_contiguous; auto; unfold countable in Hfit; lia.
    + reflexivity.
    + simpl. intros ->. simpl. apply length_fmap.
    + intros i str Hi. simpl.
      exists (makeRenderPass (_attachments p) (_subPasses str)).
      split; [|split; reflexivity].
      rewrite lookup_app_r by lia.
      replace (length (_passes p) + i - length (_passes p))%nat with i by lia.
      rewrite list_lookup_fmap, Hi. reflexivity.
Qed.

Lemma setStructure_walk_witness :
  exists p', setStructure example02_structure
               (set_attachments example02_attachments newPipeline) = Done tt p' /\
             length (_passes p') = 1%nat /\
             getSubPassesCount <$> _passes p' = [2].
Proof.
  assert (Hatt : _attachments (set_attachments example02_attachments newPipeline) <> [])
    by (vm_compute; discriminate).
  assert (Hfit : countableStructure example02_structure)
    by (split; [|repeat constructor]; vm_compute; discriminate).
  destruct (setStructure_walk _ example02_structure Hatt Hfit) as (_ & _ & Hok).
  destruct Hok as (p' & Hrun & Hpasses & Hlen & _).
  - split; [reflexivity | repeat constructor].
  - exists p'. split; [exact Hrun|]. split; [apply Hlen; reflexivity|].
    rewrite Hpasses. reflexivity.
Defined.

(** C9: [setStructure] throws the missing-attachments error exactly when the
    attachment set is empty at that moment, which is the case when no
    attachments were declared and when they are declared only afterwards;
    with attachments declared it goes on to check the passes. *)
Theorem setStructure_needs_attachments (p : WdeRenderPipelineInstance)
    (structure : list RenderPassStructure) :
  (_attachments p = [] ->
     setStructure structure p = Throw NoAttachments (set_structure structure p) /\
     kind NoAttachments = MissingAttachmentsError) /\
  (_attachments p <> [] ->
     setStructure structure p = createPasses 0 structure (set_structure structure p)) /\
  ((exists e, threw (setStructure structure p) = Some e /\ kind e = MissingAttachmentsError)
   <-> _attachments p = []) /\
  threw (setStructure structure newPipeline) = Some NoAttachments /\
  (forall attachments,
     threw ((setStructure structure ;; setAttachments attachments) newPipeline)
     = Some NoAttachments).
Proof.
  split; [|split; [|split; [|split]]].
  - intros Hempty. split; [apply setStructure_no_attachments; exact Hempty | reflexivity].
  - apply setStructure_attachments.
  - split.
    + intros (e & Hthrew & Hkind).
      destruct (decide (_attachments p = [])) as [|Hsome]; [assumption|].
      rewrite setStructure_attachments in Hthrew by exact Hsome.
      destruct (createPasses 0 structure (set_structure structure p)) as [| e' p' |] eqn:Hwalk;
        try discriminate.
      injection Hthrew as ->.
      apply createPasses_throws_gap in Hwalk. congruence.
    + intros Hempty. exists NoAttachments.
      rewrite setStructure_no_attachments by exact Hempty. split; reflexivity.
  - reflexivity.
  - intros attachments. reflexivity.
Qed.

(** ** Commands that return *)

Section Inversion.
Context {S A B : Type}.

Lemma bind_Done (c : cmd S A) (k : A -> cmd S B) (s s2 : S) (b : B) :
  bind c k s = Done b s2 <-> exists a s1, c s = Done a s1 /\ k a s1 = Done b s2.
Proof.
  unfold bind. split.
  - destruct (c s) as [a s1| |]; [eauto | discriminate | discriminate].
  - intros (a & s1 & -> & Hk). exact Hk.
Qed.

Lemma gets_Done (f : S -> A) (s s' : S) (a : A) :
  gets f s = Done a s' <-> a = f s /\ s' = s.
Proof. unfold gets. split; [intros [= <- <-]; auto | intros [-> ->]; reflexivity]. Qed.

Lemma ret_Done (a a' : A) (s s' : S) :
  ret a s = Done a' s' <-> a' = a /\ s' = s.
Proof. unfold ret. split; [intros [= <- <-]; auto | intros [-> ->]; reflexivity]. Qed.

Lemma modify_Done (f : S -> S) (s s' : S) (u : unit) :
  modify f s = Done u s' <-> s' = f s.
Proof. unfold modify. destruct u. split; [intros [= <-]; auto | intros ->; reflexivity]. Qed.

Lemma throw_if_Done (b : bool) (e : WdeException) (s s' : S) (u : unit) :
  throw_if b e s = Done u s' <-> b = false /\ s' = s.
Proof.
  unfold throw_if, throw, ret. destruct u, b; split;
    [discriminate | intros [? _]; discriminate | intros [= <-]; auto | intros [_ ->]; reflexivity].
Qed.

Lemma defined_Done (o : option A) (s s' : S) (a : A) :
  defined o s = Done a s' <-> o = Some a /\ s' = s.
Proof.
  unfold defined, undefined, ret. destruct o; split;
    [intros [= <- <-]; auto | intros [[= ->] ->]; reflexivity
    | discriminate | intros [? _]; discriminate].
Qed.
End Inversion.

Lemma urem_Done {S : Type} (a b r : Z) (s s' : S) :
  urem a b s = Done r s' <-> b <> 0 /\ r = a mod b /\ s' = s.
Proof.
  unfold urem, undefined, ret. destruct (Z.eqb_spec b 0); split.
  - discriminate.
  - intros [? _]. contradiction.
  - intros [= <- <-]. auto.
  - intros (_ & -> & ->). reflexivity.
Qed.

Lemma zoom_Done {S T A : Type} (get : S -> T) (set : T -> S -> S) (c : cmd T A)
    (s s' : S) (a : A) :
  zoom get set c s = Done a s' <-> exists t, c (get s) = Done a t /\ s' = set t s.
Proof.
  unfold zoom. split.
  - destruct (c (get s)) as [a0 t| |]; [intros [= <- <-]; eauto | discriminate | discriminate].
  - intros (t & -> & ->). reflexivity.
Qed.

Ltac invert_done H :=
  repeat match type of H with
  | bind _ _ _ = Done _ _ =>
      let a := fresh "a" in let s := fresh "s" in let H1 := fresh "Hstep" in
      apply bind_Done in H as (a & s & H1 & H); invert_done H1
  | gets _ _ = Done _ _ => apply gets_Done in H as [-> ->]
  | ret _ _ = Done _ _ => apply ret_Done in H as [-> ->]
  | modify _ _ = Done _ _ => apply modify_Done in H as ->
  | throw_if _ _ _ = Done _ _ => apply throw_if_Done in H as [H ->]
  | defined _ _ = Done _ _ => apply defined_Done in H as [H ->]
  | urem _ _ _ = Done _ _ => apply urem_Done in H as (H & -> & ->)
  end.


(** ** The tick *)

Lemma CommandBuffer_begin_Done (slot : Z) (s s' : Engine) (u : unit) :
  CommandBuffer_begin slot s = Done u s' ->
  s' = {| renderer :=
            set_commandBuffers
              (<[Z.to_nat slot := {| _running := true |}]> (_commandBuffers (renderer s)))
              (renderer s);
          pipeline := pipeline s;
          trace := trace s ++ [CmdBegin slot] |}.
Proof.
  intros H. unfold CommandBuffer_begin, commandBufferAt, setRunning, emit in H.
  invert_done H. reflexivity.
Qed.

Lemma CommandBuffer_end_Done (slot : Z) (s s' : Engine) (u : unit) :
  CommandBuffer_end slot s = Done u s' ->
  s' = {| renderer :=
            set_commandBuffers
              (<[Z.to_nat slot := {| _running := false |}]> (_commandBuffers (renderer s)))
              (renderer s);
          pipeline := pipeline s;
          trace := trace s ++ [CmdEnd slot] |}.
Proof.
  intros H. unfold CommandBuffer_end, commandBufferAt, setRunning, emit in H.
  invert_done H. reflexivity.
Qed.

Lemma running_buffer (bufs : list CommandBuffer) (slot : Z) (cb : CommandBuffer) :
  Cxx.at_ bufs slot = Some cb ->
  isRunning cb = true ->
  <[Z.to_nat slot := {| _running := true |}]> bufs = bufs.
Proof.
  intros [_ Hcb]%at_Some_lookup Hrun. apply list_insert_id.
  destruct cb as [running]. simpl in Hrun. rewrite Hcb, Hrun. reflexivity.
Qed.

(** The state in which the render callback runs: the slot is recording. *)
Lemma tick_begin_phase (frame : Z) (cb : CommandBuffer) (s s' : Engine) (u : unit) :
  Cxx.at_ (_commandBuffers (renderer s)) frame = Some cb ->
  (if negb (isRunning cb) then CommandBuffer_begin frame else ret tt) s = Done u s' ->
  s' = {| renderer :=
            set_commandBuffers
              (<[Z.to_nat frame := {| _running := true |}]> (_commandBuffers (renderer s)))
              (renderer s);
          pipeline := pipeline s;
          trace := trace s ++ (if isRunning cb then [] else [CmdBegin frame]) |}.
Proof.
  intros Hcb H. destruct (isRunning cb) eqn:Hrun; simpl in H.
  - apply ret_Done in H as [_ ->]. rewrite (running_buffer _ _ _ Hcb Hrun), app_nil_r.
    destruct s as [[] ? ?]; reflexivity.
  - apply CommandBuffer_begin_Done in H. exact H.
Qed.
Ltac step H :=
  let a := fresh "a" in let s := fresh "s" in let H1 := fresh "Hstep" in
  apply bind_Done in H as (a & s & H1 & H);
  first [ apply CommandBuffer_end_Done in H1; subst s
        | apply zoom_Done in H1 as (? & H1 & ->)
        | invert_done H1 ];
  cbn in *.

Lemma tick_returns_inv (input : TickInput) (e e' : Engine) :
  tick input e = Done tt e' ->
  let r := renderer e in
  let sc := _swapchain r in
  let frame := _currentFrame r in
  let image := nextImage input in
  let maxFrames := _currentFramesInFlightCount r in
  exists cb p' lastFence fence waitSemaphore signalSemaphore,
    Cxx.at_ (_commandBuffers r) frame = Some cb /\
    render input frame (pipeline e) = Done tt p' /\
    Cxx.to_uint32 maxFrames <> 0 /\
    Cxx.at_ (_inFlightFences sc)
      (Cxx.to_uint32 (image - 1) mod Cxx.to_uint32 maxFrames) = Some lastFence /\
    Cxx.at_ (_inFlightFences sc) image = Some fence /\
    Cxx.at_ (_imageAvailableSemaphores sc) image = Some waitSemaphore /\
    Cxx.at_ (_renderFinishedSemaphores sc) image = Some signalSemaphore /\
    presentResult input = VK_SUCCESS /\
    Cxx.to_size_t maxFrames <> 0 /\
    renderer e' = rendererAfterTick image r /\
    pipeline e' = p' /\
    trace e' = trace e ++
      tickEvents frame image (isRunning cb) lastFence fence waitSemaphore signalSemaphore.
Proof.
  intros H. unfold tick in H.
  unfold aquireNextImage, emit, getCurrentFrame, commandBufferAt in H.
  step H. step H. step H.
  eapply (tick_begin_phase _ a1) in Hstep0; [|exact Hstep]. subst s. cbn in *.
  unfold getActiveImageIndex, getMaxFramesInFlight, getInFlightFence,
    getImageAvailableSemaphore, getRenderFinishedSemaphore, vkWaitForFences,
    CommandBuffer_submit, presentToQueue, emit in H.
  repeat step H. invert_done H.
  destruct a3. destruct (presentResult input); try discriminate.
  exists a1, x, a4, a6, a7, a8. repeat (split; [assumption || reflexivity|]).
  split; [|split; [reflexivity|]].
  - unfold rendererAfterTick, set_currentFrame, set_commandBuffers. cbn.
    rewrite list_insert_insert_eq. reflexivity.
  - unfold tickEvents. rewrite <- !app_assoc. reflexivity.
Qed.


Lemma at_insert_eq {A : Type} (v : list A) (i : Z) (x y : A) :
  Cxx.at_ v i = Some x -> Cxx.at_ (<[Z.to_nat i := y]> v) i = Some y.
Proof.
  intros [Hi _]%at_Some_lookup. unfold Cxx.at_.
  rewrite length_insert, bool_decide_eq_true_2 by exact Hi.
  apply list_lookup_insert_eq. lia.
Qed.

Ltac run_engine :=
  unfold aquireNextImage, presentToQueue, vkWaitForFences, CommandBuffer_begin,
    CommandBuffer_end, CommandBuffer_submit, commandBufferAt, setRunning, emit,
    getCurrentFrame, getMaxFramesInFlight, getActiveImageIndex, getInFlightFence,
    getImageAvailableSemaphore, getRenderFinishedSemaphore, urem, zoom, defined, undefined;
  run.

Lemma tick_begin_completes (frame : Z) (cb : CommandBuffer) (s : Engine) :
  Cxx.at_ (_commandBuffers (renderer s)) frame = Some cb ->
  (if negb (isRunning cb) then CommandBuffer_begin frame else ret tt) s =
    Done tt
      {| renderer :=
           set_commandBuffers
             (<[Z.to_nat frame := {| _running := true |}]> (_commandBuffers (renderer s)))
             (renderer s);
         pipeline := pipeline s;
         trace := trace s ++ (if isRunning cb then [] else [CmdBegin frame]) |}.
Proof.
  intros Hcb. destruct (isRunning cb) eqn:Hrun; simpl.
  - rewrite (running_buffer _ _ _ Hcb Hrun), app_nil_r.
    destruct s as [[] ? ?]; reflexivity.
  - run_engine. rewrite Hcb. simpl. rewrite Hrun. reflexivity.
Qed.

Lemma CommandBuffer_end_recording (slot : Z) (s : Engine) :
  Cxx.at_ (_commandBuffers (renderer s)) slot = Some {| _running := true |} ->
  CommandBuffer_end slot s =
    Done tt
      {| renderer :=
           set_commandBuffers
             (<[Z.to_nat slot := {| _running := false |}]> (_commandBuffers (renderer s)))
             (renderer s);
         pipeline := pipeline s;
         trace := trace s ++ [CmdEnd slot] |}.
Proof.
  intros Hcb. run_engine. rewrite Hcb. reflexivity.
Qed.

Ltac returns_by tac :=
  apply bind_Done; do 2 eexists; split; [tac |].

(** A tick returns when its accesses are in range, the callback returns and
    the surface presents the image. *)
Lemma tick_completes (input : TickInput) (e : Engine) (cb : CommandBuffer)
    (p' : WdeRenderPipelineInstance) (lastFence fence : VkFence)
    (waitSemaphore signalSemaphore : VkSemaphore) :
  let r := renderer e in
  let sc := _swapchain r in
  let frame := _currentFrame r in
  let image := nextImage input in
  let maxFrames := _currentFramesInFlightCount r in
  Cxx.at_ (_commandBuffers r) frame = Some cb ->
  render input frame (pipeline e) = Done tt p' ->
  Cxx.to_uint32 maxFrames <> 0 ->
  Cxx.at_ (_inFlightFences sc)
    (Cxx.to_uint32 (image - 1) mod Cxx.to_uint32 maxFrames) = Some lastFence ->
  Cxx.at_ (_inFlightFences sc) image = Some fence ->
  Cxx.at_ (_imageAvailableSemaphores sc) image = Some waitSemaphore ->
  Cxx.at_ (_renderFinishedSemaphores sc) image = Some signalSemaphore ->
  presentResult input = VK_SUCCESS ->
  Cxx.to_size_t maxFrames <> 0 ->
  tick input e =
    Done tt {| renderer := rendererAfterTick image r;
               pipeline := p';
               trace := trace e ++
                 tickEvents frame image (isRunning cb) lastFence fence
                   waitSemaphore signalSemaphore |}.
Proof.
  intros r sc frame image maxFrames Hcb Hrender Hmax Hlast Hfence Hwait Hsignal Hpresent Hsize.
  subst r sc frame image maxFrames. unfold tick.
  returns_by ltac:(run_engine; reflexivity).
  returns_by ltac:(run_engine; reflexivity).
  returns_by ltac:(run_engine; rewrite Hcb; reflexivity).
  returns_by ltac:(apply (tick_begin_completes _ cb); exact Hcb).
  returns_by ltac:(run_engine; reflexivity).
  returns_by ltac:(apply zoom_Done; eexists; split; [exact Hrender | reflexivity]).
  returns_by ltac:(run_engine; reflexivity).
  returns_by ltac:(run_engine; reflexivity).
  returns_by ltac:(apply urem_Done; repeat split; exact Hmax).
  returns_by ltac:(run_engine; rewrite Hlast; reflexivity).
  returns_by ltac:(run_engine; reflexivity).
  returns_by ltac:(apply CommandBuffer_end_recording; cbn; eapply at_insert_eq; exact Hcb).
  returns_by ltac:(run_engine; reflexivity).
  returns_by ltac:(run_engine; rewrite Hfence; reflexivity).
  returns_by ltac:(run_engine; rewrite Hwait; reflexivity).
  returns_by ltac:(run_engine; rewrite Hsignal; reflexivity).
  returns_by ltac:(run_engine; reflexivity).
  returns_by ltac:(run_engine; reflexivity).
  returns_by ltac:(rewrite Hpresent; reflexivity).
  returns_by ltac:(run_engine; reflexivity).
  returns_by ltac:(run_engine; reflexivity).
  returns_by ltac:(apply urem_Done; repeat split; exact Hsize).
  unfold modify, rendererAfterTick, set_renderer, set_currentFrame, set_commandBuffers. cbn.
  rewrite list_insert_insert_eq. unfold tickEvents. rewrite <- !app_assoc. reflexivity.
Qed.

Lemma submissions_app (tr1 tr2 : list Event) :
  submissions (tr1 ++ tr2) = submissions tr1 ++ submissions tr2.
Proof. apply filter_app. Qed.

Lemma submittedSlots_app (tr1 tr2 : list Event) :
  submittedSlots (tr1 ++ tr2) = submittedSlots tr1 ++ submittedSlots tr2.
Proof. apply omap_app. Qed.

Lemma submissions_tickEvents (frame image : Z) (wasRunning : bool)
    (lastFence fence : VkFence) (waitSemaphore signalSemaphore : VkSemaphore) :
  submissions (tickEvents frame image wasRunning lastFence fence waitSemaphore signalSemaphore)
  = [CmdSubmit frame fence waitSemaphore signalSemaphore].
Proof. destruct wasRunning; reflexivity. Qed.

Lemma submittedSlots_tickEvents (frame image : Z) (wasRunning : bool)
    (lastFence fence : VkFence) (waitSemaphore signalSemaphore : VkSemaphore) :
  submittedSlots (tickEvents frame image wasRunning lastFence fence waitSemaphore signalSemaphore)
  = [frame].
Proof. destruct wasRunning; reflexivity. Qed.

Lemma last_image_index (image maxFrames : Z) :
  1 <= image < Cxx.UINT32_RANGE ->
  0 < maxFrames <= Cxx.INT_MAX ->
  Cxx.to_uint32 (image - 1) mod Cxx.to_uint32 maxFrames = (image - 1) mod maxFrames.
Proof.
  unfold Cxx.INT_MAX, Cxx.UINT32_RANGE. intros Himage Hmax.
  rewrite !to_uint32_small by (unfold Cxx.UINT32_RANGE; lia). reflexivity.
Qed.

Lemma next_frame_index (frame maxFrames : Z) :
  0 <= frame < Cxx.SIZE_RANGE - 1 ->
  0 < maxFrames <= Cxx.INT_MAX ->
  Cxx.to_size_t (frame + 1) mod Cxx.to_size_t maxFrames = (frame + 1) mod maxFrames.
Proof.
  unfold Cxx.INT_MAX, Cxx.SIZE_RANGE. intros Hframe Hmax.
  rewrite !to_size_t_small by (unfold Cxx.SIZE_RANGE; lia). reflexivity.
Qed.

(** C1, as the code has it: a tick that returns, for an acquired image
    index of at least 1, waits for exactly one fence, the one at index
    (image index - 1) modulo the frames in flight of the swapchain's fences,
    after the command buffer of the frame slot is begun (when it was idle)
    and the render callback has run, and before the command buffer is ended
    and submitted. *)
Theorem tick_waits_for_last_image (input : TickInput) (e e' : Engine) :
  tick input e = Done tt e' ->
  1 <= nextImage input < Cxx.UINT32_RANGE ->
  0 < _currentFramesInFlightCount (renderer e) <= Cxx.INT_MAX ->
  let r := renderer e in
  let frame := _currentFrame r in
  let image := nextImage input in
  let maxFrames := _currentFramesInFlightCount r in
  exists cb lastFence fence waitSemaphore signalSemaphore,
    Cxx.at_ (_commandBuffers r) frame = Some cb /\
    Cxx.at_ (_inFlightFences (_swapchain r)) ((image - 1) mod maxFrames) = Some lastFence /\
    trace e' =
      trace e ++
      AcquireNextImage image ::
      (if isRunning cb then [] else [CmdBegin frame]) ++
      [ RenderCallback frame; WaitForFences lastFence; CmdEnd frame;
        CmdSubmit frame fence waitSemaphore signalSemaphore; PresentToQueue image ].
Proof.
  intros Htick Himage Hmax.
  destruct (tick_returns_inv input e e' Htick)
    as (cb & p' & lastFence & fence & w & s & Hcb & _ & _ & Hlast & _ & _ & _ & _ & _ & _ & _ & Htrace).
  exists cb, lastFence, fence, w, s. cbn zeta.
  split; [exact Hcb|]. split; [|exact Htrace].
  rewrite <- last_image_index by assumption. exact Hlast.
Qed.

Lemma tick_waits_for_last_image_witness :
  exists lastFence,
    Cxx.at_ [100; 101; 102] ((2 - 1) mod 3) = Some lastFence /\
    In (WaitForFences lastFence) (trace exampleAfterTick).
Proof.
  assert (Htick : tick (exampleInput 2) (exampleEngine 0 example02_pipeline)
                  = Done tt exampleAfterTick) by (vm_compute; reflexivity).
  assert (Himage : 1 <= nextImage (exampleInput 2) < Cxx.UINT32_RANGE)
    by (vm_compute; split; congruence).
  assert (Hmax : 0 < _currentFramesInFlightCount
                       (renderer (exampleEngine 0 example02_pipeline)) <= Cxx.INT_MAX)
    by (vm_compute; split; congruence).
  destruct (tick_waits_for_last_image _ _ _ Htick Himage Hmax)
    as (cb & lastFence & fence & w & s & Hcb & Hlast & Htrace).
  exists lastFence. split.
  - exact Hlast.
  - rewrite Htrace. apply in_or_app. right. right. apply in_or_app. right.
    simpl. tauto.
Defined.

(** C1, as it is worded, fails: the tick of the example engine in frame slot
    0 that acquires image 2 begins the command buffer of slot 0 first and
    waits afterwards, for fence 101, which is not the fence 100 of slot 0. *)
Lemma tick_waits_before_begin_counterexample :
  tick (exampleInput 2) (exampleEngine 0 example02_pipeline) = Done tt exampleAfterTick /\
  trace exampleAfterTick =
    [ AcquireNextImage 2; CmdBegin 0; RenderCallback 0; WaitForFences 101;
      CmdEnd 0; CmdSubmit 0 102 202 302; PresentToQueue 2 ] /\
  Cxx.at_ (_inFlightFences (_swapchain (exampleRenderer 0))) 0 = Some 100 /\
  waitsBeforeBegin 100 0 (trace exampleAfterTick) = false.
Proof.
  split; [vm_compute; reflexivity|]. split; [vm_compute; reflexivity|].
  split; vm_compute; reflexivity.
Qed.

(** C2, as the code has it: a tick that returns submits the command buffer
    of the frame slot once, and the fence, the wait signal and the finished
    signal it submits with are all three the ones at the index of the image
    that the surface handed out. *)
Theorem tick_submits_with_image_index (input : TickInput) (e e' : Engine) :
  tick input e = Done tt e' ->
  let r := renderer e in
  let image := nextImage input in
  exists fence waitSemaphore signalSemaphore,
    Cxx.at_ (_inFlightFences (_swapchain r)) image = Some fence /\
    Cxx.at_ (_imageAvailableSemaphores (_swapchain r)) image = Some waitSemaphore /\
    Cxx.at_ (_renderFinishedSemaphores (_swapchain r)) image = Some signalSemaphore /\
    submissions (trace e') =
      submissions (trace e) ++
      [CmdSubmit (_currentFrame r) fence waitSemaphore signalSemaphore].
Proof.
  intros Htick.
  destruct (tick_returns_inv input e e' Htick)
    as (cb & p' & lastFence & fence & w & s & _ & _ & _ & _ & Hf & Hw & Hs & _ & _ & _ & _ & Htrace).
  exists fence, w, s. cbn zeta. repeat (split; [assumption|]).
  rewrite Htrace, submissions_app, submissions_tickEvents. reflexivity.
Qed.

Lemma tick_submits_with_image_index_witness :
  submissions (trace exampleAfterTick) = [CmdSubmit 0 102 202 302].
Proof.
  assert (Htick : tick (exampleInput 2) (exampleEngine 0 example02_pipeline)
                  = Done tt exampleAfterTick) by (vm_compute; reflexivity).
  destruct (tick_submits_with_image_index _ _ _ Htick)
    as (fence & w & s & Hf & Hw & Hs & Hsub).
  vm_compute in Hf, Hw, Hs. injection Hf as <-. injection Hw as <-. injection Hs as <-.
  exact Hsub.
Defined.

(** C2, as it is worded, fails: in frame slot 0 with image 2 acquired, the
    submission carries fence 102, the fence at the image index, and not the
    fence 100 at the frame slot index. *)
Lemma tick_submits_slot_fence_counterexample :
  tick (exampleInput 2) (exampleEngine 0 example02_pipeline) = Done tt exampleAfterTick /\
  submissions (trace exampleAfterTick) = [CmdSubmit 0 102 202 302] /\
  Cxx.at_ (_inFlightFences (_swapchain (exampleRenderer 0))) 0 = Some 100 /\
  ~ submitsWithSlotFence (exampleEngine 0 example02_pipeline) 2 (trace exampleAfterTick).
Proof.
  split; [vm_compute; reflexivity|]. split; [vm_compute; reflexivity|].
  split; [vm_compute; reflexivity|].
  intros (fence & w & s & Hf & _ & _ & Hsub).
  vm_compute in Hf, Hsub. congruence.
Qed.

(** ** The frame index *)

Lemma tick_frame (input : TickInput) (e e' : Engine) :
  tick input e = Done tt e' ->
  0 <= _currentFrame (renderer e) < Cxx.SIZE_RANGE - 1 ->
  0 < _currentFramesInFlightCount (renderer e) <= Cxx.INT_MAX ->
  _currentFramesInFlightCount (renderer e') = _currentFramesInFlightCount (renderer e) /\
  _currentFrame (renderer e') =
    (_currentFrame (renderer e) + 1) mod _currentFramesInFlightCount (renderer e) /\
  submittedSlots (trace e') = submittedSlots (trace e) ++ [_currentFrame (renderer e)].
Proof.
  intros Htick Hframe Hmax.
  destruct (tick_returns_inv input e e' Htick)
    as (cb & p' & lastFence & fence & w & s & _ & _ & _ & _ & _ & _ & _ & _ & _ & Hr & _ & Htrace).
  rewrite Hr, Htrace, submittedSlots_app, submittedSlots_tickEvents. cbn.
  rewrite next_frame_index by assumption. auto.
Qed.

Lemma ticks_frames (inputs : list TickInput) :
  forall e e' : Engine,
    ticks inputs e = Done tt e' ->
    0 < _currentFramesInFlightCount (renderer e) <= Cxx.INT_MAX ->
    0 <= _currentFrame (renderer e) < _currentFramesInFlightCount (renderer e) ->
    _currentFramesInFlightCount (renderer e') = _currentFramesInFlightCount (renderer e) /\
    _currentFrame (renderer e') =
      (_currentFrame (renderer e) + Z.of_nat (length inputs))
        mod _currentFramesInFlightCount (renderer e) /\
    submittedSlots (trace e') =
      submittedSlots (trace e) ++
      ((fun i => (_currentFrame (renderer e) + i) mod _currentFramesInFlightCount (renderer e))
         <$> seqZ 0 (Z.of_nat (length inputs))).
Proof.
  induction inputs as [|input rest IH]; intros e e' Hticks Hmax Hframe.
  - apply ret_Done in Hticks as [_ ->]. cbn. rewrite Z.add_0_r, app_nil_r.
    rewrite Z.mod_small by lia. auto.
  - cbn [ticks] in Hticks. apply bind_Done in Hticks as ([] & e1 & Htick & Hticks).
    destruct (tick_frame input e e1 Htick) as (Hmax1 & Hframe1 & Hslots1);
      [unfold Cxx.SIZE_RANGE, Cxx.INT_MAX in *; lia | exact Hmax |].
    destruct (IH e1 e' Hticks) as (Hmax' & Hframe' & Hslots').
    { rewrite Hmax1. exact Hmax. }
    { rewrite Hmax1, Hframe1. apply Z.mod_pos_bound. lia. }
    rewrite Hmax1, Hframe1 in *. split; [exact Hmax'|]. split.
    + rewrite Hframe', Zplus_mod_idemp_l. f_equal. cbn [length]. lia.
    + rewrite Hslots', Hslots1, <- app_assoc. f_equal.
      cbn [length]. rewrite seqZ_of_nat_S, fmap_cons, Z.add_0_r.
      rewrite (Z.mod_small (_currentFrame (renderer e))) by lia.
      cbn [app]. f_equal.
      rewrite <- (fmap_add_seqZ 1 0), <- list_fmap_compose.
      apply list_fmap_ext. intros _ i _. cbn.
      rewrite Zplus_mod_idemp_l. f_equal. lia.
Qed.

(** C4: a tick that returns moves the frame index to its successor modulo
    the frames in flight, once, and submits the command buffer of the slot
    it started in; consecutive ticks therefore use the slots in ring order,
    and with three frames in flight, starting from slot 0, the slots go
    0, 1, 2, 0, 1, 2, ... *)
Theorem frame_index_advances (input : TickInput) (inputs : list TickInput)
    (e e1 e' : Engine) :
  0 < _currentFramesInFlightCount (renderer e) <= Cxx.INT_MAX ->
  0 <= _currentFrame (renderer e) < _currentFramesInFlightCount (renderer e) ->
  (tick input e = Done tt e1 ->
     _currentFrame (renderer e1) =
       (_currentFrame (renderer e) + 1) mod _currentFramesInFlightCount (renderer e) /\
     _currentFramesInFlightCount (renderer e1) = _currentFramesInFlightCount (renderer e) /\
     submittedSlots (trace e1) = submittedSlots (trace e) ++ [_currentFrame (renderer e)]) /\
  (ticks inputs e = Done tt e' ->
     _currentFrame (renderer e') =
       (_currentFrame (renderer e) + Z.of_nat (length inputs))
         mod _currentFramesInFlightCount (renderer e) /\
     submittedSlots (trace e') =
       submittedSlots (trace e) ++
       ((fun i => (_currentFrame (renderer e) + i) mod _currentFramesInFlightCount (renderer e))
          <$> seqZ 0 (Z.of_nat (length inputs)))) /\
  (ticks inputs e = Done tt e' ->
   _currentFramesInFlightCount (renderer e) = 3 ->
   _currentFrame (renderer e) = 0 ->
   trace e = [] ->
     submittedSlots (trace e') =
       (fun i => i mod 3) <$> seqZ 0 (Z.of_nat (length inputs))).
Proof.
  intros Hmax Hframe. split; [|split].
  - intros Htick.
    destruct (tick_frame input e e1 Htick) as (Hmax1 & Hframe1 & Hslots1);
      [unfold Cxx.SIZE_RANGE, Cxx.INT_MAX in *; lia | exact Hmax |].
    auto.
  - intros Hticks.
    destruct (ticks_frames inputs e e' Hticks Hmax Hframe) as (_ & Hframe' & Hslots').
    auto.
  - intros Hticks Hthree Hzero Hempty.
    destruct (ticks_frames inputs e e' Hticks Hmax Hframe) as (_ & _ & Hslots').
    rewrite Hslots', Hempty, Hthree, Hzero. reflexivity.
Qed.

Lemma frame_index_advances_witness :
  _currentFrame (renderer exampleAfterTick) = 1 /\
  submittedSlots (trace exampleAfterTicks) = [0; 1; 2; 0] /\
  _currentFrame (renderer exampleAfterTicks) = 1.
Proof.
  pose (e := exampleEngine 0 example02_pipeline).
  assert (Hmax : 0 < _currentFramesInFlightCount (renderer e) <= Cxx.INT_MAX)
    by (vm_compute; split; congruence).
  assert (Hframe : 0 <= _currentFrame (renderer e) < _currentFramesInFlightCount (renderer e))
    by (vm_compute; split; congruence).
  assert (Htick : tick (exampleInput 2) e = Done tt exampleAfterTick)
    by (vm_compute; reflexivity).
  assert (Hticks : ticks exampleInputs e = Done tt exampleAfterTicks)
    by (vm_compute; reflexivity).
  destruct (frame_index_advances (exampleInput 2) exampleInputs e
              exampleAfterTick exampleAfterTicks Hmax Hframe)
    as (Hone & Hmany & Hring).
  destruct (Hone Htick) as (Hnext & _ & _).
  destruct (Hmany Hticks) as (Hlast & _).
  split; [exact Hnext|]. split; [|exact Hlast].
  apply (Hring Hticks); reflexivity.
Defined.

(** ** The examples of the design document *)

Example gap_in_pass_ids :
  threw (setStructure
           [ {| _passID := 0; _subPasses := [] |}; {| _passID := 2; _subPasses := [] |} ]
           (set_attachments example02_attachments newPipeline))
  = Some (MissingRenderPass 1) /\
  what (MissingRenderPass 1) = Some "Missing render pass with ID = 1.".
Proof. split; vm_compute; reflexivity. Qed.

Example gap_in_subpass_ids :
  threw (setStructure
           [ {| _passID := 0;
                _subPasses :=
                  [ {| _subpassID := 0; _readingAttachments := []; _writingAttachments := [0] |};
                    {| _subpassID := 2; _readingAttachments := []; _writingAttachments := [1] |} ] |} ]
           (set_attachments example02_attachments newPipeline))
  = Some (MissingRenderSubPass 1 0) /\
  what (MissingRenderSubPass 1 0)
  = Some "Missing render subpass with ID = 1 in render pass with ID = 0.".
Proof. split; vm_compute; reflexivity. Qed.

Example tick_of_example02 :
  returned (tick (exampleInput 2) (exampleEngine 0 example02_pipeline)) = Some exampleAfterTick /\
  passState (pipeline exampleAfterTick) = Outside /\
  (rp_calls <$> _passes (pipeline exampleAfterTick))
  = [[Start; StartSubPass 0; EndSubPass 0; StartSubPass 1; EndSubPass 1; End_]].
Proof.
  split; [vm_compute; reflexivity|]. split; vm_compute; reflexivity.
Qed.

(** ** The protocol keeps the pipeline well formed *)

Lemma newPipeline_wellFormed : wellFormed newPipeline.
Proof. split; simpl; [unfold Cxx.SIZE_RANGE; lia | reflexivity | congruence]. Qed.

Lemma beginRenderPass_wellFormed (p p' : WdeRenderPipelineInstance) (index : Z) :
  wellFormed p -> Cxx.is_uint32 index -> index <= Cxx.INT_MAX ->
  beginRenderPass index p = Done tt p' -> wellFormed p'.
Proof.
  intros Hwf [Hlo Hhi] Hint Hbegin.
  pose proof (beginRenderPass_returns_inv _ _ _ Hbegin) as (Hcur & _ & _).
  destruct (Z.le_gt_cases (Z.of_nat (length (_passes p))) index) as [Hge|Hlt].
  - rewrite beginRenderPass_out_of_range in Hbegin by assumption. discriminate.
  - rewrite beginRenderPass_starts in Hbegin by (auto using wf_size; lia).
    injection Hbegin as <-. split; simpl; rewrite ?length_alter.
    + apply (wf_size p Hwf).
    + lia.
    + lia.
Qed.

Lemma endRenderSubPass_wellFormed (p p' : WdeRenderPipelineInstance) :
  wellFormed p -> endRenderSubPass p = Done tt p' -> wellFormed p'.
Proof.
  intros Hwf Hend.
  destruct (Z.eq_dec (_currentRenderPassID p) (-1)) as [Hcur|Hcur].
  - rewrite endRenderSubPass_outside in Hend by exact Hcur. discriminate.
  - rewrite endRenderSubPass_ends in Hend by auto using wf_size, wf_pass.
    injection Hend as <-. split; simpl; rewrite ?length_alter.
    + apply (wf_size p Hwf).
    + reflexivity.
    + apply (wf_pass p Hwf).
Qed.

Lemma beginRenderSubPass_wellFormed (p p' : WdeRenderPipelineInstance) (index : Z) :
  wellFormed p -> Cxx.is_uint32 index -> index <= Cxx.INT_MAX ->
  beginRenderSubPass index p = Done tt p' -> wellFormed p'.
Proof.
  intros Hwf [Hlo Hhi] Hint Hbegin.
  destruct (Z.eq_dec (_currentRenderPassID p) (-1)) as [Hcur|Hcur].
  { rewrite beginRenderSubPass_outside in Hbegin by exact Hcur. discriminate. }
  destruct (Z.eq_dec (_currentRenderSubPassID p) (-1)) as [Hsub|Hsub].
  2: { rewrite beginRenderSubPass_active in Hbegin by assumption. discriminate. }
  pose proof (wf_pass p Hwf Hcur) as Hrange.
  destruct (at_in_range (_passes p) _ Hrange) as (pass & _ & Hpass).
  rewrite (beginRenderSubPass_checks p index pass) in Hbegin by auto using wf_size.
  destruct (getSubPassesCount pass <=? index); [discriminate|].
  injection Hbegin as <-. split; simpl; rewrite ?length_alter.
  - apply (wf_size p Hwf).
  - contradiction.
  - intros _. exact Hrange.
Qed.

Lemma endRenderPass_wellFormed (p p' : WdeRenderPipelineInstance) :
  wellFormed p -> endRenderPass p = Done tt p' -> wellFormed p'.
Proof.
  intros Hwf Hend.
  destruct (Z.eq_dec (_currentRenderSubPassID p) (-1)) as [Hsub|Hsub].
  2: { rewrite endRenderPass_in_subpass in Hend by exact Hsub. discriminate. }
  destruct (Z.eq_dec (_currentRenderPassID p) (-1)) as [Hcur|Hcur].
  { rewrite endRenderPass_outside in Hend by auto using wf_size. discriminate. }
  rewrite endRenderPass_ends in Hend by auto using wf_size, wf_pass.
  injection Hend as <-. split; simpl; rewrite ?length_alter.
  - apply (wf_size p Hwf).
  - intros _. exact Hsub.
  - congruence.
Qed.

(** * Further properties of the pipeline instance *)

(** ** Throwing commands leave the pipeline as it was *)

Lemma callPass_never_throws (id : Z) (c : RenderPassCall)
    (p p' : WdeRenderPipelineInstance) (e : WdeException) :
  callPass id c p <> Throw e p'.
Proof.
  unfold callPass, passAt. run.
  destruct (Cxx.at_ (_passes p) (Cxx.to_size_t id)); discriminate.
Qed.

Lemma bind_Throw {S A B : Type} (c : cmd S A) (k : A -> cmd S B) (s s' : S)
    (e : WdeException) :
  bind c k s = Throw e s' <->
  c s = Throw e s' \/ exists a s1, c s = Done a s1 /\ k a s1 = Throw e s'.
Proof.
  unfold bind. destruct (c s) as [a s1|e1 s1|]; split.
  - eauto.
  - intros [|(a' & s1' & [= <- <-] & Hk)]; [discriminate | exact Hk].
  - intros [= <- <-]. auto.
  - intros [[= <- <-]|(a' & s1' & ? & _)]; [reflexivity | discriminate].
  - discriminate.
  - intros [|(a' & s1' & ? & _)]; discriminate.
Qed.

Lemma throw_if_Throw {S : Type} (b : bool) (e e' : WdeException) (s s' : S) :
  throw_if b e s = Throw e' s' <-> b = true /\ e' = e /\ s' = s.
Proof.
  unfold throw_if, throw, ret. destruct b; split.
  - intros [= <- <-]. auto.
  - intros (_ & -> & ->). reflexivity.
  - discriminate.
  - intros [? _]. discriminate.
Qed.

Lemma defined_never_throws {S A : Type} (o : option A) (s s' : S) (e : WdeException) :
  defined o s <> Throw e s'.
Proof. destruct o; discriminate. Qed.

Ltac invert_throw H :=
  repeat match type of H with
  | bind _ _ _ = Throw _ _ =>
      let a := fresh "a" in let s := fresh "s" in let H1 := fresh "Hstep" in
      apply bind_Throw in H as [H|(a & s & H1 & H)]; [|invert_done H1]
  | throw_if _ _ _ = Throw _ _ => apply throw_if_Throw in H as (_ & _ & ->)
  | gets _ _ = Throw _ _ => discriminate H
  | modify _ _ = Throw _ _ => discriminate H
  | callPass _ _ _ = Throw _ _ => exfalso; exact (callPass_never_throws _ _ _ _ _ H)
  | defined _ _ = Throw _ _ => exfalso; exact (defined_never_throws _ _ _ _ H)
  end.

(** X1: the four begin/end commands check before they change anything: when
    one of them throws, the pipeline is left exactly as it was. *)
Theorem protocol_throws_leave_state (p p' : WdeRenderPipelineInstance)
    (index : Z) (e : WdeException) :
  (beginRenderPass index p = Throw e p' -> p' = p) /\
  (endRenderPass p = Throw e p' -> p' = p) /\
  (beginRenderSubPass index p = Throw e p' -> p' = p) /\
  (endRenderSubPass p = Throw e p' -> p' = p).
Proof.
  repeat split; intros H.
  - unfold beginRenderPass in H. invert_throw H; try reflexivity.
  - unfold endRenderPass in H. invert_throw H; try reflexivity.
  - unfold beginRenderSubPass, passAt in H. invert_throw H; try reflexivity.
  - unfold endRenderSubPass in H. invert_throw H; try reflexivity.
Qed.

(** ** What returning commands change *)

Lemma callPass_Done (id : Z) (c : RenderPassCall) (p p' : WdeRenderPipelineInstance) (u : unit) :
  callPass id c p = Done u p' ->
  0 <= Cxx.to_size_t id < Z.of_nat (length (_passes p)) /\
  p' = set_passes (alter (called c) (Z.to_nat (Cxx.to_size_t id)) (_passes p)) p.
Proof.
  intros H. unfold callPass, passAt in H. invert_done H.
  apply at_Some_lookup in Hstep as [Hrange _]. auto.
Qed.

Lemma sameDeclarations_refl (p : WdeRenderPipelineInstance) : sameDeclarations p p.
Proof. repeat split. Qed.

Lemma sameDeclarations_trans (p q r : WdeRenderPipelineInstance) :
  sameDeclarations p q -> sameDeclarations q r -> sameDeclarations p r.
Proof. intros (? & ? & ?) (? & ? & ?). repeat split; congruence. Qed.

Lemma subPasses_alter_called (c : RenderPassCall) (i : nat) (passes : list RenderPass) :
  rp_subPasses <$> alter (called c) i passes = rp_subPasses <$> passes.
Proof.
  rewrite (list_fmap_alter rp_subPasses (called c) id).
  - apply list_alter_id. reflexivity.
  - apply Forall_forall. reflexivity.
Qed.

Ltac invert_callPass :=
  repeat match goal with
  | H : callPass _ _ _ = Done _ _ |- _ => apply callPass_Done in H as [_ ->]
  end.

Lemma runCall_sameDeclarations (c : ProtocolCall) (p p' : WdeRenderPipelineInstance) :
  runCall c p = Done tt p' -> sameDeclarations p p'.
Proof.
  destruct c; cbn [runCall]; intros H.
  - unfold beginRenderPass in H. invert_done H. invert_callPass.
    repeat split. apply subPasses_alter_called.
  - unfold endRenderPass in H. invert_done H. invert_callPass.
    repeat split. apply subPasses_alter_called.
  - unfold beginRenderSubPass, passAt in H. invert_done H. invert_callPass.
    repeat split. apply subPasses_alter_called.
  - unfold endRenderSubPass in H. invert_done H. invert_callPass.
    repeat split. apply subPasses_alter_called.
Qed.

Lemma runCall_wellFormed (c : ProtocolCall) (p p' : WdeRenderPipelineInstance) :
  wellFormed p -> indexFits c -> runCall c p = Done tt p' -> wellFormed p'.
Proof.
  intros Hwf Hfit H. destruct c; cbn [runCall] in H; unfold indexFits in Hfit; cbn in Hfit.
  - eapply beginRenderPass_wellFormed; eauto; [unfold Cxx.is_uint32, Cxx.UINT32_RANGE, Cxx.INT_MAX in *|]; lia.
  - eapply endRenderPass_wellFormed; eauto.
  - eapply beginRenderSubPass_wellFormed; eauto; [unfold Cxx.is_uint32, Cxx.UINT32_RANGE, Cxx.INT_MAX in *|]; lia.
  - eapply endRenderSubPass_wellFormed; eauto.
Qed.

(** X2: whatever sequence of begin/end commands a render override runs, if
    it returns then the pipeline is still well formed (a subpass is active
    only inside a pass, and the active pass is one of the list), and the
    attachments, the structure, and the subpasses of every runtime pass are
    what they were. *)
Theorem runCalls_invariant (cs : list ProtocolCall) (p p' : WdeRenderPipelineInstance) :
  wellFormed p ->
  Forall indexFits cs ->
  runCalls cs p = Done tt p' ->
  wellFormed p' /\ sameDeclarations p p' /\ length (_passes p') = length (_passes p).
Proof.
  intros Hwf Hfit. revert p Hwf.
  induction Hfit as [|c cs Hc Hcs IH]; intros p Hwf Hrun.
  - apply ret_Done in Hrun as [_ ->]. auto using sameDeclarations_refl.
  - cbn [runCalls] in Hrun. apply bind_Done in Hrun as ([] & p1 & Hcall & Hrun).
    pose proof (runCall_wellFormed c p p1 Hwf Hc Hcall) as Hwf1.
    pose proof (runCall_sameDeclarations c p p1 Hcall) as Hsame1.
    destruct (IH p1 Hwf1 Hrun) as (Hwf' & Hsame' & Hlen').
    split; [exact Hwf'|]. split; [eapply sameDeclarations_trans; eauto|].
    rewrite Hlen'. destruct Hsame1 as (_ & _ & Hsub).
    apply (f_equal length) in Hsub. rewrite !length_fmap in Hsub. exact Hsub.
Qed.

Lemma runCalls_invariant_witness :
  wellFormed example02_inSubPass /\
  sameDeclarations example02_pipeline example02_inSubPass.
Proof.
  assert (Hwf : wellFormed example02_pipeline) by concrete_wellFormed.
  assert (Hfit : Forall indexFits [BeginRenderPass 0; BeginRenderSubPass 0])
    by (repeat constructor; vm_compute; congruence).
  assert (Hrun : runCalls [BeginRenderPass 0; BeginRenderSubPass 0] example02_pipeline
                 = Done tt example02_inSubPass) by (vm_compute; reflexivity).
  destruct (runCalls_invariant _ _ _ Hwf Hfit Hrun) as (Hwf' & Hsame & _).
  split; assumption.
Defined.

(** ** A render pass with its subpasses, begun and ended in turn *)

Lemma runCalls_app (cs1 cs2 : list ProtocolCall) (p : WdeRenderPipelineInstance) :
  runCalls (cs1 ++ cs2) p = bind (runCalls cs1) (fun _ => runCalls cs2) p.
Proof.
  revert p. induction cs1 as [|c cs1 IH]; intros p; [reflexivity|].
  cbn [app runCalls]. unfold bind in *.
  destruct (runCall c p) as [[] p1| |]; [apply IH | reflexivity | reflexivity].
Qed.

Lemma calledAll_nil (q : RenderPass) : calledAll [] q = q.
Proof. destruct q. unfold calledAll. simpl. rewrite app_nil_r. reflexivity. Qed.

Lemma calledAll_app (cs1 cs2 : list RenderPassCall) (q : RenderPass) :
  calledAll cs2 (calledAll cs1 q) = calledAll (cs1 ++ cs2) q.
Proof. unfold calledAll. simpl. rewrite app_assoc. reflexivity. Qed.

Lemma withCalls_nil (index : Z) (p : WdeRenderPipelineInstance) :
  withCalls index [] p = p.
Proof.
  unfold withCalls. rewrite list_alter_id by apply calledAll_nil. destruct p; reflexivity.
Qed.

Lemma withCalls_app (index : Z) (cs1 cs2 : list RenderPassCall)
    (p : WdeRenderPipelineInstance) :
  withCalls index cs2 (withCalls index cs1 p) = withCalls index (cs1 ++ cs2) p.
Proof.
  unfold withCalls. simpl. rewrite list_alter_alter_eq.
  rewrite (list_alter_ext _ (calledAll (cs1 ++ cs2)) _ (_passes p));
    [reflexivity | | reflexivity].
  intros q _. apply calledAll_app.
Qed.

Lemma withCalls_lookup (index : Z) (cs : list RenderPassCall)
    (p : WdeRenderPipelineInstance) (pass : RenderPass) :
  _passes p !! Z.to_nat index = Some pass ->
  _passes (withCalls index cs p) !! Z.to_nat index = Some (calledAll cs pass).
Proof.
  intros Hpass. unfold withCalls. simpl. rewrite list_lookup_alter_eq, Hpass. reflexivity.
Qed.

(** One subpass, begun and ended inside the active pass. *)
Lemma subpass_begun_and_ended (p : WdeRenderPipelineInstance) (pass : RenderPass) (j : Z) :
  0 <= _currentRenderPassID p < Z.of_nat (length (_passes p)) ->
  Z.of_nat (length (_passes p)) < Cxx.SIZE_RANGE ->
  _currentRenderSubPassID p = -1 ->
  _passes p !! Z.to_nat (_currentRenderPassID p) = Some pass ->
  0 <= j < getSubPassesCount pass ->
  j <= Cxx.INT_MAX ->
  runCalls [BeginRenderSubPass j; EndRenderSubPass] p =
    Done tt (withCalls (_currentRenderPassID p) [StartSubPass j; EndSubPass j] p).
Proof.
  intros Hcur Hsize Hsub Hpass Hj Hint. cbn [runCalls runCall]. unfold bind.
  rewrite (beginRenderSubPass_checks p j pass) by assumption.
  destruct (Z.leb_spec (getSubPassesCount pass) j); [lia|].
  rewrite endRenderSubPass_ends by (simpl; rewrite ?length_alter; assumption).
  unfold ret, withCalls. simpl. rewrite to_int_small by lia.
  rewrite list_alter_alter_eq.
  destruct p as [att str passes cur sub]. simpl in *. subst sub.
  unfold set_currentRenderSubPassID, set_passes. simpl. do 2 f_equal.
  apply list_alter_ext; [|reflexivity]. intros q _.
  unfold called, calledAll, compose. simpl. rewrite <- app_assoc. reflexivity.
Qed.

Lemma subpasses_begun_and_ended (js : list Z) :
  forall (p : WdeRenderPipelineInstance) (pass : RenderPass),
    0 <= _currentRenderPassID p < Z.of_nat (length (_passes p)) ->
    Z.of_nat (length (_passes p)) < Cxx.SIZE_RANGE ->
    _currentRenderSubPassID p = -1 ->
    _passes p !! Z.to_nat (_currentRenderPassID p) = Some pass ->
    Forall (fun j => 0 <= j < getSubPassesCount pass /\ j <= Cxx.INT_MAX) js ->
    runCalls (flat_map (fun j => [BeginRenderSubPass j; EndRenderSubPass]) js) p =
      Done tt (withCalls (_currentRenderPassID p)
                 (flat_map (fun j => [StartSubPass j; EndSubPass j]) js) p).
Proof.
  induction js as [|j js IH]; intros p pass Hcur Hsize Hsub Hpass Hjs.
  - cbn. rewrite withCalls_nil. reflexivity.
  - apply Forall_cons in Hjs as [[Hj Hint] Hjs].
    cbn [flat_map]. rewrite runCalls_app. unfold bind.
    rewrite (subpass_begun_and_ended p pass j) by assumption.
    rewrite (IH _ (calledAll [StartSubPass j; EndSubPass j] pass)).
    + simpl _currentRenderPassID. rewrite withCalls_app. reflexivity.
    + simpl. rewrite length_alter. exact Hcur.
    + simpl. rewrite length_alter. exact Hsize.
    + exact Hsub.
    + apply withCalls_lookup. exact Hpass.
    + exact Hjs.
Qed.

Lemma renderPassCycle_done (p : WdeRenderPipelineInstance) (index : Z)
    (pass : RenderPass) (js : list Z) :
  wellFormed p ->
  passState p = Outside ->
  0 <= index <= Cxx.INT_MAX ->
  _passes p !! Z.to_nat index = Some pass ->
  Forall (fun j => 0 <= j < getSubPassesCount pass /\ j <= Cxx.INT_MAX) js ->
  runCalls (renderPassCycle index js) p = Done tt (withCalls index (cycleCalls js) p) /\
  passState (withCalls index (cycleCalls js) p) = Outside.
Proof.
  intros Hwf Hout%passState_Outside Hindex Hpass Hjs.
  pose proof (wf_size p Hwf) as Hsize.
  pose proof (wf_outside p Hwf Hout) as Hsub.
  assert (Hrange : 0 <= index < Z.of_nat (length (_passes p))).
  { apply lookup_lt_Some in Hpass. lia. }
  split; [|apply passState_Outside; exact Hout].
  unfold renderPassCycle. cbn [runCalls runCall]. unfold bind at 1.
  rewrite beginRenderPass_starts by (auto; lia).
  rewrite runCalls_app. unfold bind.
  rewrite (subpasses_begun_and_ended js _ (called Start pass)); simpl;
    rewrite ?length_alter; auto.
  2: { rewrite list_lookup_alter_eq, Hpass. reflexivity. }
  cbn [runCalls runCall]. unfold bind.
  rewrite endRenderPass_ends by (simpl; rewrite ?length_alter; auto).
  unfold ret, withCalls, cycleCalls. simpl.
  rewrite !list_alter_alter_eq.
  destruct p as [att str passes cur sub]. simpl in *. subst cur.
  unfold set_currentRenderPassID, set_passes. simpl. do 2 f_equal.
  apply list_alter_ext; [|reflexivity]. intros q _.
  unfold calledAll, called, compose. simpl. f_equal. rewrite <- !app_assoc. reflexivity.
Qed.

(** X3: a render override that begins pass [index], begins and ends each
    subpass of [js] in turn, and ends the pass, returns whenever [index] is a
    runtime pass and every subpass of [js] is one of that pass; it leaves the
    pipeline outside of any pass, exactly as it was except that the runtime
    pass [index] received start, then startSubPass and endSubPass for each
    subpass in order, then end. *)
Theorem renderPassCycle_returns (p : WdeRenderPipelineInstance) (index : Z)
    (pass : RenderPass) (js : list Z) :
  wellFormed p ->
  passState p = Outside ->
  0 <= index <= Cxx.INT_MAX ->
  _passes p !! Z.to_nat index = Some pass ->
  Forall (fun j => 0 <= j < getSubPassesCount pass /\ j <= Cxx.INT_MAX) js ->
  runCalls (renderPassCycle index js) p = Done tt (withCalls index (cycleCalls js) p) /\
  passState (withCalls index (cycleCalls js) p) = Outside.
Proof.
  intros Hwf Hout Hindex Hpass Hjs.
  exact (renderPassCycle_done p index pass js Hwf Hout Hindex Hpass Hjs).
Qed.

Lemma renderPassCycle_returns_witness :
  runCalls (renderPassCycle 0 [0; 1]) example02_pipeline
  = Done tt (withCalls 0 (cycleCalls [0; 1]) example02_pipeline).
Proof.
  assert (Hwf : wellFormed example02_pipeline) by concrete_wellFormed.
  assert (Hout : passState example02_pipeline = Outside) by reflexivity.
  assert (Hindex : 0 <= 0 <= Cxx.INT_MAX) by (vm_compute; split; congruence).
  destruct (at_in_range (_passes example02_pipeline) 0) as (pass & _ & Hpass);
    [vm_compute; split; congruence|].
  assert (Hjs : Forall (fun j => 0 <= j < getSubPassesCount pass /\ j <= Cxx.INT_MAX) [0; 1]).
  { vm_compute in Hpass. injection Hpass as <-.
    repeat constructor; vm_compute; congruence. }
  apply (renderPassCycle_returns example02_pipeline 0 pass [0; 1] Hwf Hout Hindex Hpass Hjs).
Defined.

(** ** onWindowResized replays the declared structure *)

Lemma checkSubPasses_cases (subPasses : list RenderSubPassStructure) (it j : Z) :
  (forall q, checkSubPasses it j subPasses q = Done tt q) \/
  (exists e, forall q, checkSubPasses it j subPasses q = Throw e q).
Proof.
  revert j. induction subPasses as [|sub rest IH]; intros j; [left; reflexivity|].
  cbn [checkSubPasses]. run.
  destruct (j =? _subpassID sub); simpl; [apply IH | right; eauto].
Qed.

Lemma createPasses_Done (structure : list RenderPassStructure) :
  forall (it : Z) (q q' : WdeRenderPipelineInstance) (u : unit),
    createPasses it structure q = Done u q' ->
    q' = set_passes (_passes q ++ runtimePasses (_attachments q) structure) q.
Proof.
  induction structure as [|str rest IH]; intros it q q' u.
  - intros [_ ->]%ret_Done. unfold runtimePasses. cbn.
    rewrite app_nil_r. destruct q; reflexivity.
  - cbn [createPasses]. run.
    destruct (it =? _passID str); simpl; [|discriminate].
    destruct (checkSubPasses_cases (_subPasses str) it 0) as [Hok|[e Hthrow]].
    + rewrite Hok. simpl. intros ->%IH. unfold runtimePasses. simpl.
      rewrite <- app_assoc. reflexivity.
    + rewrite Hthrow. discriminate.
Qed.

Lemma createPasses_Throw (structure : list RenderPassStructure) :
  forall (it : Z) (q q' : WdeRenderPipelineInstance) (e : WdeException),
    createPasses it structure q = Throw e q' ->
    _attachments q' = _attachments q /\ _structure q' = _structure q.
Proof.
  induction structure as [|str rest IH]; intros it q q' e; [discriminate|].
  cbn [createPasses]. run.
  destruct (it =? _passID str); simpl; [|intros [= _ <-]; auto].
  destruct (checkSubPasses_cases (_subPasses str) it 0) as [Hok|[e' Hthrow]].
  - rewrite Hok. simpl. intros H%IH. exact H.
  - rewrite Hthrow. intros [= _ <-]. auto.
Qed.

(** Whether the walk returns, and what it throws, depends on the structure
    alone. *)
Lemma createPasses_cases (structure : list RenderPassStructure) (it : Z) :
  (forall q, exists q', createPasses it structure q = Done tt q') \/
  (exists e, forall q, exists q', createPasses it structure q = Throw e q').
Proof.
  revert it. induction structure as [|str rest IH]; intros it; [left; eexists; reflexivity|].
  cbn [createPasses]. run.
  destruct (it =? _passID str); simpl; [|right; eauto].
  destruct (checkSubPasses_cases (_subPasses str) it 0) as [Hok|[e Hthrow]].
  - destruct (IH (Cxx.to_uint32 (it + 1))) as [Hdone|[e Hthrow]].
    + left. intros q. rewrite Hok. simpl. apply Hdone.
    + right. exists e. intros q. rewrite Hok. simpl. apply Hthrow.
  - right. exists e. intros q. rewrite Hthrow. eauto.
Qed.

Lemma createPasses_replayed (structure : list RenderPassStructure) (it : Z)
    (q1 q2 : WdeRenderPipelineInstance) :
  match createPasses it structure q1 with
  | Done _ _ =>
      createPasses it structure q2 =
        Done tt (set_passes (_passes q2 ++ runtimePasses (_attachments q2) structure) q2)
  | Throw e _ => exists q2', createPasses it structure q2 = Throw e q2'
  | Undefined => False
  end.
Proof.
  destruct (createPasses_cases structure it) as [Hdone|[e Hthrow]].
  - destruct (Hdone q1) as [q1' ->]. destruct (Hdone q2) as [q2' Hq2].
    rewrite Hq2. apply createPasses_Done in Hq2. subst q2'. reflexivity.
  - destruct (Hthrow q1) as [q1' ->]. apply Hthrow.
Qed.

Lemma setStructure_Done (structure : list RenderPassStructure)
    (p p' : WdeRenderPipelineInstance) (u : unit) :
  setStructure structure p = Done u p' ->
  _attachments p <> [] /\
  p' = set_passes (_passes p ++ runtimePasses (_attachments p) structure)
         (set_structure structure p).
Proof.
  intros H. destruct (decide (_attachments p = [])) as [Hempty|Hsome].
  - rewrite setStructure_no_attachments in H by exact Hempty. discriminate.
  - rewrite setStructure_attachments in H by exact Hsome.
    apply createPasses_Done in H. auto.
Qed.

Lemma onWindowResized_unfold (p : WdeRenderPipelineInstance) :
  onWindowResized p = setStructure (_structure p) (set_passes [] p).
Proof. reflexivity. Qed.

(** X4: [onWindowResized] rebuilds the runtime passes from the structure that
    the last [setStructure] stored.  After a [setStructure] that returned it
    returns too, and the pass list is then exactly the freshly built passes
    of that structure: passes accumulated by earlier calls, and the calls
    the passes had received, are gone, while the ids of the active pass and
    subpass stay as they are.  After a [setStructure] that threw, it throws
    the same exception again. *)
Theorem onWindowResized_replays (structure : list RenderPassStructure)
    (p p' : WdeRenderPipelineInstance) :
  (setStructure structure p = Done tt p' ->
     _passes p' = _passes p ++ runtimePasses (_attachments p) structure /\
     onWindowResized p' =
       Done tt (set_passes (runtimePasses (_attachments p) structure) p')) /\
  (forall e, setStructure structure p = Throw e p' ->
     exists p'', onWindowResized p' = Throw e p'').
Proof.
  split.
  - intros Hset.
    destruct (setStructure_Done _ _ _ _ Hset) as [Hsome ->].
    rewrite setStructure_attachments in Hset by exact Hsome.
    split; [reflexivity|].
    rewrite onWindowResized_unfold. simpl _structure.
    rewrite setStructure_attachments by exact Hsome.
    pose proof (createPasses_replayed structure 0 (set_structure structure p)
                  (set_structure structure
                     (set_passes []
                        (set_passes (_passes p ++ runtimePasses (_attachments p) structure)
                           (set_structure structure p))))) as Hreplay.
    rewrite Hset in Hreplay. exact Hreplay.
  - intros e Hset.
    rewrite onWindowResized_unfold.
    destruct (decide (_attachments p = [])) as [Hempty|Hsome].
    + rewrite setStructure_no_attachments in Hset by exact Hempty.
      injection Hset as <- <-. eexists. apply setStructure_no_attachments. exact Hempty.
    + rewrite setStructure_attachments in Hset by exact Hsome.
      destruct (createPasses_Throw _ _ _ _ _ Hset) as [Hatt Hstr]. simpl in Hatt, Hstr.
      rewrite Hstr.
      rewrite setStructure_attachments by (simpl; rewrite Hatt; exact Hsome).
      pose proof (createPasses_replayed structure 0 (set_structure structure p)
                    (set_structure structure (set_passes [] p'))) as Hreplay.
      rewrite Hset in Hreplay. exact Hreplay.
Qed.

(** * Further properties of the tick *)

Lemma zoom_Throw {S T A : Type} (get : S -> T) (set : T -> S -> S) (c : cmd T A)
    (s s' : S) (e : WdeException) :
  zoom get set c s = Throw e s' <-> exists t, c (get s) = Throw e t /\ s' = set t s.
Proof.
  unfold zoom. split.
  - destruct (c (get s)) as [a0 t|e0 t|]; [discriminate | intros [= <- <-]; eauto | discriminate].
  - intros (t & -> & ->). reflexivity.
Qed.

Ltac throws_after tac :=
  apply bind_Throw; right; do 2 eexists; split; [tac |].

(** X5: when the application's render override throws, the tick throws the
    same exception at once: it has acquired the image and begun the command
    buffer of the frame slot (when it was idle), but it waits for no fence,
    submits nothing and presents nothing; the frame index is not advanced,
    the command buffer of the slot is left recording, and the pipeline is
    left in the state the override threw in (the active pass and subpass are
    not reset). *)
Theorem tick_render_throws (input : TickInput) (e : Engine) (cb : CommandBuffer)
    (p' : WdeRenderPipelineInstance) (ex : WdeException) :
  Cxx.at_ (_commandBuffers (renderer e)) (_currentFrame (renderer e)) = Some cb ->
  render input (_currentFrame (renderer e)) (pipeline e) = Throw ex p' ->
  exists e',
    tick input e = Throw ex e' /\
    pipeline e' = p' /\
    trace e' =
      trace e ++
      AcquireNextImage (nextImage input) ::
      (if isRunning cb then [] else [CmdBegin (_currentFrame (renderer e))]) ++
      [RenderCallback (_currentFrame (renderer e))] /\
    submissions (trace e') = submissions (trace e) /\
    _currentFrame (renderer e') = _currentFrame (renderer e) /\
    Cxx.at_ (_commandBuffers (renderer e')) (_currentFrame (renderer e))
      = Some {| _running := true |}.
Proof.
  intros Hcb Hrender. eexists. split.
  - unfold tick.
    throws_after ltac:(run_engine; reflexivity).
    throws_after ltac:(run_engine; reflexivity).
    throws_after ltac:(run_engine; rewrite Hcb; reflexivity).
    throws_after ltac:(apply (tick_begin_completes _ cb); exact Hcb).
    throws_after ltac:(run_engine; reflexivity).
    apply bind_Throw. left. apply zoom_Throw. eexists. split; [exact Hrender | reflexivity].
  - cbn. split; [reflexivity|]. split; [rewrite <- !app_assoc; reflexivity|].
    split; [|split; [reflexivity|]].
    + rewrite !submissions_app. destruct (isRunning cb); cbn; rewrite !app_nil_r; reflexivity.
    + eapply at_insert_eq. exact Hcb.
Qed.

Lemma tick_render_throws_witness :
  exists e',
    tick {| nextImage := 2;
            render := fun _ => beginRenderPass 0 ;; beginRenderPass 0;
            presentResult := VK_SUCCESS |}
         (exampleEngine 0 example02_pipeline) = Throw (PassAlreadyBegan 0 0) e' /\
    passState (pipeline e') = InPass 0 /\
    submissions (trace e') = [].
Proof.
  pose (input := {| nextImage := 2;
                    render := fun _ : Z => beginRenderPass 0 ;; beginRenderPass 0;
                    presentResult := VK_SUCCESS |}).
  assert (Hcb : Cxx.at_ (_commandBuffers (renderer (exampleEngine 0 example02_pipeline)))
                  (_currentFrame (renderer (exampleEngine 0 example02_pipeline)))
                = Some {| _running := false |}) by (vm_compute; reflexivity).
  assert (Hrender : render input (_currentFrame (renderer (exampleEngine 0 example02_pipeline)))
                      (pipeline (exampleEngine 0 example02_pipeline))
                    = Throw (PassAlreadyBegan 0 0) example02_inPass)
    by (vm_compute; reflexivity).
  destruct (tick_render_throws input _ _ _ _ Hcb Hrender)
    as (e' & Htick & Hpipe & _ & Hsub & _).
  exists e'. split; [exact Htick|]. rewrite Hpipe, Hsub. split; reflexivity.
Defined.

(** X6: when the surface does not present the image, the tick throws the
    present-failed exception after it has waited, ended the command buffer
    and submitted it; the frame index is not advanced, so the next tick
    uses the same frame slot again. *)
Theorem tick_present_fails (input : TickInput) (e : Engine) (cb : CommandBuffer)
    (p' : WdeRenderPipelineInstance) (lastFence fence : VkFence)
    (waitSemaphore signalSemaphore : VkSemaphore) :
  Cxx.at_ (_commandBuffers (renderer e)) (_currentFrame (renderer e)) = Some cb ->
  render input (_currentFrame (renderer e)) (pipeline e) = Done tt p' ->
  Cxx.to_uint32 (_currentFramesInFlightCount (renderer e)) <> 0 ->
  Cxx.at_ (_inFlightFences (_swapchain (renderer e)))
    (Cxx.to_uint32 (nextImage input - 1)
       mod Cxx.to_uint32 (_currentFramesInFlightCount (renderer e))) = Some lastFence ->
  Cxx.at_ (_inFlightFences (_swapchain (renderer e))) (nextImage input) = Some fence ->
  Cxx.at_ (_imageAvailableSemaphores (_swapchain (renderer e))) (nextImage input)
    = Some waitSemaphore ->
  Cxx.at_ (_renderFinishedSemaphores (_swapchain (renderer e))) (nextImage input)
    = Some signalSemaphore ->
  presentResult input <> VK_SUCCESS ->
  exists e',
    tick input e = Throw PresentFailed e' /\
    pipeline e' = p' /\
    trace e' =
      trace e ++
      tickEvents (_currentFrame (renderer e)) (nextImage input) (isRunning cb)
        lastFence fence waitSemaphore signalSemaphore /\
    _currentFrame (renderer e') = _currentFrame (renderer e) /\
    Cxx.at_ (_commandBuffers (renderer e')) (_currentFrame (renderer e))
      = Some {| _running := false |}.
Proof.
  intros Hcb Hrender Hmax Hlast Hfence Hwait Hsignal Hpresent. eexists. split.
  - unfold tick.
    throws_after ltac:(run_engine; reflexivity).
    throws_after ltac:(run_engine; reflexivity).
    throws_after ltac:(run_engine; rewrite Hcb; reflexivity).
    throws_after ltac:(apply (tick_begin_completes _ cb); exact Hcb).
    throws_after ltac:(run_engine; reflexivity).
    throws_after ltac:(apply zoom_Done; eexists; split; [exact Hrender | reflexivity]).
    throws_after ltac:(run_engine; reflexivity).
    throws_after ltac:(run_engine; reflexivity).
    throws_after ltac:(apply urem_Done; repeat split; exact Hmax).
    throws_after ltac:(run_engine; rewrite Hlast; reflexivity).
    throws_after ltac:(run_engine; reflexivity).
    throws_after ltac:(apply CommandBuffer_end_recording; cbn; eapply at_insert_eq; exact Hcb).
    throws_after ltac:(run_engine; reflexivity).
    throws_after ltac:(run_engine; rewrite Hfence; reflexivity).
    throws_after ltac:(run_engine; rewrite Hwait; reflexivity).
    throws_after ltac:(run_engine; rewrite Hsignal; reflexivity).
    throws_after ltac:(run_engine; reflexivity).
    throws_after ltac:(run_engine; reflexivity).
    apply bind_Throw. left. apply throw_if_Throw.
    split; [|split; reflexivity].
    destruct (presentResult input); [contradiction | reflexivity..].
  - cbn. split; [reflexivity|]. split; [|split; [reflexivity|]].
    + unfold tickEvents. rewrite <- !app_assoc. reflexivity.
    + eapply at_insert_eq. eapply at_insert_eq. exact Hcb.
Qed.

Lemma tick_present_fails_witness :
  exists e',
    tick {| nextImage := 2; render := example02_render;
            presentResult := VK_ERROR_OUT_OF_DATE_KHR |}
         (exampleEngine 0 example02_pipeline) = Throw PresentFailed e' /\
    _currentFrame (renderer e') = 0 /\
    submittedSlots (trace e') = [0].
Proof.
  pose (input := {| nextImage := 2; render := example02_render;
                    presentResult := VK_ERROR_OUT_OF_DATE_KHR |}).
  pose (e := exampleEngine 0 example02_pipeline).
  assert (Hcb : Cxx.at_ (_commandBuffers (renderer e)) (_currentFrame (renderer e))
                = Some {| _running := false |}) by (vm_compute; reflexivity).
  assert (Hrender : render input (_currentFrame (renderer e)) (pipeline e)
                    = Done tt (pipeline exampleAfterTick)) by (vm_compute; reflexivity).
  assert (Hmax : Cxx.to_uint32 (_currentFramesInFlightCount (renderer e)) <> 0)
    by (vm_compute; congruence).
  assert (Hlast : Cxx.at_ (_inFlightFences (_swapchain (renderer e)))
                    (Cxx.to_uint32 (nextImage input - 1)
                       mod Cxx.to_uint32 (_currentFramesInFlightCount (renderer e)))
                  = Some 101) by (vm_compute; reflexivity).
  assert (Hfence : Cxx.at_ (_inFlightFences (_swapchain (renderer e))) (nextImage input)
                   = Some 102) by (vm_compute; reflexivity).
  assert (Hwait : Cxx.at_ (_imageAvailableSemaphores (_swapchain (renderer e)))
                    (nextImage input) = Some 202) by (vm_compute; reflexivity).
  assert (Hsignal : Cxx.at_ (_renderFinishedSemaphores (_swapchain (renderer e)))
                      (nextImage input) = Some 302) by (vm_compute; reflexivity).
  assert (Hpresent : presentResult input <> VK_SUCCESS) by (vm_compute; congruence).
  destruct (tick_present_fails input e _ _ _ _ _ _
              Hcb Hrender Hmax Hlast Hfence Hwait Hsignal Hpresent)
    as (e' & Htick & _ & Htrace & Hframe & _).
  exists e'. split; [exact Htick|]. split; [exact Hframe|].
  rewrite Htrace. reflexivity.
Defined.

(** X7: a tick returns exactly when the command buffer of the frame slot
    exists, the render override returns, the frames-in-flight count is not
    zero, the fences and signals it indexes exist (the fence at (image - 1)
    modulo the count, and the fence and the two signals at the image index)
    and the surface presents the image. *)
Theorem tick_returns_iff (input : TickInput) (e : Engine) :
  (exists e', tick input e = Done tt e') <->
  (exists cb p' lastFence fence waitSemaphore signalSemaphore,
     Cxx.at_ (_commandBuffers (renderer e)) (_currentFrame (renderer e)) = Some cb /\
     render input (_currentFrame (renderer e)) (pipeline e) = Done tt p' /\
     Cxx.to_uint32 (_currentFramesInFlightCount (renderer e)) <> 0 /\
     Cxx.at_ (_inFlightFences (_swapchain (renderer e)))
       (Cxx.to_uint32 (nextImage input - 1)
          mod Cxx.to_uint32 (_currentFramesInFlightCount (renderer e))) = Some lastFence /\
     Cxx.at_ (_inFlightFences (_swapchain (renderer e))) (nextImage input) = Some fence /\
     Cxx.at_ (_imageAvailableSemaphores (_swapchain (renderer e))) (nextImage input)
       = Some waitSemaphore /\
     Cxx.at_ (_renderFinishedSemaphores (_swapchain (renderer e))) (nextImage input)
       = Some signalSemaphore /\
     presentResult input = VK_SUCCESS /\
     Cxx.to_size_t (_currentFramesInFlightCount (renderer e)) <> 0).
Proof.
  split.
  - intros [e' Htick].
    destruct (tick_returns_inv input e e' Htick)
      as (cb & p' & lastFence & fence & w & s & H1 & H2 & H3 & H4 & H5 & H6 & H7 & H8 & H9 & _).
    exists cb, p', lastFence, fence, w, s. auto 10.
  - intros (cb & p' & lastFence & fence & w & s & H1 & H2 & H3 & H4 & H5 & H6 & H7 & H8 & H9).
    eexists. apply (tick_completes input e cb p' lastFence fence w s); assumption.
Qed.

(** ** What the frame loop keeps *)

Lemma tick_keeps (input : TickInput) (e e' : Engine) :
  tick input e = Done tt e' ->
  _commandBuffers (renderer e') =
    <[Z.to_nat (_currentFrame (renderer e)) := {| _running := false |}]>
      (_commandBuffers (renderer e)) /\
  _currentFramesInFlightCount (renderer e') = _currentFramesInFlightCount (renderer e) /\
  _inFlightFences (_swapchain (renderer e')) = _inFlightFences (_swapchain (renderer e)) /\
  _imageAvailableSemaphores (_swapchain (renderer e'))
    = _imageAvailableSemaphores (_swapchain (renderer e)) /\
  _renderFinishedSemaphores (_swapchain (renderer e'))
    = _renderFinishedSemaphores (_swapchain (renderer e)) /\
  (Forall idle (_commandBuffers (renderer e)) ->
     begunSlots (trace e') = begunSlots (trace e) ++ [_currentFrame (renderer e)]) /\
  submittedSlots (trace e') = submittedSlots (trace e) ++ [_currentFrame (renderer e)].
Proof.
  intros Htick.
  destruct (tick_returns_inv input e e' Htick)
    as (cb & p' & lastFence & fence & w & s & Hcb & _ & _ & _ & _ & _ & _ & _ & _ & Hr & _ & Htrace).
  rewrite Hr, Htrace. cbn. repeat (split; [reflexivity|]). split.
  - intros Hidle. apply at_Some_lookup in Hcb as [_ Hcb].
    rewrite Forall_lookup in Hidle. rewrite (Hidle _ _ Hcb).
    unfold begunSlots. rewrite omap_app. reflexivity.
  - rewrite submittedSlots_app, submittedSlots_tickEvents. reflexivity.
Qed.

(** X8: the frame loop keeps its resources.  If every command buffer is idle
    before a run of ticks that all return, every command buffer is idle
    after it, each tick has begun the command buffer of exactly the slot
    that it submitted, and the number of command buffers, the
    frames-in-flight count and the swapchain's fences and signals are what
    they were. *)
Theorem ticks_keep_resources (inputs : list TickInput) (e e' : Engine) :
  Forall idle (_commandBuffers (renderer e)) ->
  ticks inputs e = Done tt e' ->
  Forall idle (_commandBuffers (renderer e')) /\
  length (_commandBuffers (renderer e')) = length (_commandBuffers (renderer e)) /\
  _currentFramesInFlightCount (renderer e') = _currentFramesInFlightCount (renderer e) /\
  _inFlightFences (_swapchain (renderer e')) = _inFlightFences (_swapchain (renderer e)) /\
  _imageAvailableSemaphores (_swapchain (renderer e'))
    = _imageAvailableSemaphores (_swapchain (renderer e)) /\
  _renderFinishedSemaphores (_swapchain (renderer e'))
    = _renderFinishedSemaphores (_swapchain (renderer e)) /\
  exists slots,
    length slots = length inputs /\
    begunSlots (trace e') = begunSlots (trace e) ++ slots /\
    submittedSlots (trace e') = submittedSlots (trace e) ++ slots.
Proof.
  revert e. induction inputs as [|input rest IH]; intros e Hidle Hticks.
  - apply ret_Done in Hticks as [_ ->]. repeat (split; [reflexivity || assumption|]).
    exists []. rewrite !app_nil_r. auto.
  - cbn [ticks] in Hticks. apply bind_Done in Hticks as ([] & e1 & Htick & Hticks).
    destruct (tick_keeps input e e1 Htick)
      as (Hbufs & Hmax & Hf & Hw & Hs & Hbegun & Hsubmitted).
    specialize (Hbegun Hidle).
    assert (Hidle1 : Forall idle (_commandBuffers (renderer e1))).
    { rewrite Hbufs. apply Forall_insert; [exact Hidle | reflexivity]. }
    destruct (IH e1 Hidle1 Hticks)
      as (Hidle' & Hlen' & Hmax' & Hf' & Hw' & Hs' & slots & Hslots & Hbegun' & Hsubmitted').
    split; [exact Hidle'|]. split; [rewrite Hlen', Hbufs; apply length_insert|].
    repeat (split; [congruence|]).
    exists (_currentFrame (renderer e) :: slots). cbn [length].
    rewrite Hbegun', Hsubmitted', Hbegun, Hsubmitted, <- !app_assoc. auto.
Qed.

Lemma ticks_keep_resources_witness :
  Forall idle (_commandBuffers (renderer exampleAfterTicks)) /\
  begunSlots (trace exampleAfterTicks) = submittedSlots (trace exampleAfterTicks).
Proof.
  pose (e := exampleEngine 0 example02_pipeline).
  assert (Hidle : Forall idle (_commandBuffers (renderer e)))
    by (repeat constructor).
  assert (Hticks : ticks exampleInputs e = Done tt exampleAfterTicks)
    by (vm_compute; reflexivity).
  destruct (ticks_keep_resources exampleInputs e exampleAfterTicks Hidle Hticks)
    as (Hidle' & _ & _ & _ & _ & _ & slots & _ & Hbegun & Hsubmitted).
  split; [exact Hidle'|]. rewrite Hbegun, Hsubmitted. reflexivity.
Defined.

(** * Properties of the other components *)

(** ** CoreInstance: one command pool for each thread *)

(** X9: [getCommandPool] creates a pool only for a thread that has none.  The
    pool it returns is the one the map holds for the thread afterwards; a
    pool that is already there is returned and the map is left as it is; the
    pools of the other threads are never touched; and asking again returns
    the same pool without changing the map. *)
Theorem getCommandPool_once (threadID : ThreadId) (pools : gmap ThreadId CommandPool) :
  let (pool, pools') := getCommandPool threadID pools in
  pools' !! threadID = Some pool /\
  (forall other, other <> threadID -> pools' !! other = pools !! other) /\
  (forall existing, pools !! threadID = Some existing -> pool = existing /\ pools' = pools) /\
  (pools !! threadID = None -> _threadID pool = threadID /\ dom pools' = {[threadID]} ∪ dom pools) /\
  getCommandPool threadID pools' = (pool, pools').
Proof.
  unfold getCommandPool. destruct (pools !! threadID) as [existing|] eqn:Hlookup.
  - split; [exact Hlookup|]. split; [reflexivity|].
    split; [intros ? [= <-]; auto|]. split; [discriminate|].
    rewrite Hlookup. reflexivity.
  - split; [apply lookup_insert_eq|].
    split; [intros other Hother; apply lookup_insert_ne; congruence|].
    split; [discriminate|].
    split; [intros _; split; [reflexivity | apply dom_insert_L]|].
    rewrite lookup_insert_eq. reflexivity.
Qed.

(** ** Subject: registering and removing observers *)

Lemma filter_other_id {A : Type} `{EqDecision A} (x : A) (l : list A) :
  x ∉ l -> filter (fun y => y <> x) l = l.
Proof.
  induction l as [|y l IH]; intros Hnotin; [reflexivity|].
  apply not_elem_of_cons in Hnotin as [Hne Hnotin].
  rewrite filter_cons_True by congruence. f_equal. apply IH. exact Hnotin.
Qed.

Lemma Subject_set_observers_id (s : Subject.t) :
  Subject.set_observers (Subject._observers s) s = s.
Proof. destruct s. reflexivity. Qed.

(** X10: [removeObserver] removes every registration of the observer, not
    only one: registering an observer (on top or at the back) and removing
    it again gives the subject with all its earlier registrations of that
    observer removed too, and gives the subject back unchanged exactly when
    the observer was not registered before.  The other observers stay, in
    their order. *)
Theorem Subject_add_remove (observer : Subject.ObserverPtr) (pushTop : bool)
    (s : Subject.t) :
  Subject.removeObserver observer (Subject.addObserver observer pushTop s)
    = Subject.removeObserver observer s /\
  (observer ∉ Subject._observers s <->
     Subject.removeObserver observer (Subject.addObserver observer pushTop s) = s) /\
  (observer ∉ Subject._observers (Subject.removeObserver observer s)) /\
  (forall other, other <> observer ->
     filter (fun o => o = other) (Subject._observers (Subject.removeObserver observer s))
     = filter (fun o => o = other) (Subject._observers s)) /\
  Subject._observers (Subject.removeObserver observer s) `sublist_of` Subject._observers s.
Proof.
  assert (Hsame : Subject.removeObserver observer (Subject.addObserver observer pushTop s)
                  = Subject.removeObserver observer s).
  { unfold Subject.removeObserver, Subject.addObserver.
    destruct pushTop; simpl; unfold Subject.set_observers; simpl; f_equal.
    - rewrite filter_cons_False by (intros H; apply H; reflexivity). reflexivity.
    - rewrite filter_app, filter_cons_False by (intros H; apply H; reflexivity).
      rewrite filter_nil, app_nil_r. reflexivity. }
  split; [exact Hsame|]. rewrite Hsame. split; [|split; [|split]].
  - unfold Subject.removeObserver. split.
    + intros Hnotin. rewrite filter_other_id by exact Hnotin.
      apply Subject_set_observers_id.
    + intros Heq Hin. apply (f_equal Subject._observers) in Heq. simpl in Heq.
      rewrite <- Heq in Hin. apply list_elem_of_filter in Hin as [Hne _].
      apply Hne. reflexivity.
  - simpl. intros Hin. apply list_elem_of_filter in Hin as [Hne _]. apply Hne. reflexivity.
  - intros other Hother. simpl. rewrite list_filter_filter.
    apply list_filter_iff. intros o. split; [tauto|]. intros ->. auto.
  - simpl. apply sublist_filter.
Qed.

(** X11: [notify] delivers the event once for each registration of an observer
    that is not null, in the order of the list: an observer put on top
    receives it first, one put at the back receives it last, a null pointer
    receives nothing, and after [removeObserver] the removed observer
    receives nothing while every other delivery stays, in order. *)
Theorem Subject_notify_deliveries {E : Type} (event : E) (o : nat) (s : Subject.t) :
  Subject.notify event (Subject.addObserver (Some o) true s)
    = (o, event) :: Subject.notify event s /\
  Subject.notify event (Subject.addObserver (Some o) false s)
    = Subject.notify event s ++ [(o, event)] /\
  (forall pushTop,
     Subject.notify event (Subject.addObserver Subject.nullptr pushTop s)
     = Subject.notify event s) /\
  length (filter (fun d => d.1 = o) (Subject.notify event s)) = Subject.registrations o s /\
  Subject.notify event (Subject.removeObserver (Some o) s)
    = filter (fun d => d.1 <> o) (Subject.notify event s) /\
  Subject.notify event (Subject.removeObserver Subject.nullptr s) = Subject.notify event s /\
  Subject.notify event (Subject.clearObservers s) = [].
Proof.
  unfold Subject.notify, Subject.registrations, Subject.addObserver, Subject.removeObserver,
    Subject.clearObservers, Subject.nullptr.
  destruct s as [label observers]. simpl.
  split; [reflexivity|]. split; [rewrite omap_app; reflexivity|].
  split; [intros []; simpl; [reflexivity | rewrite omap_app; simpl; apply app_nil_r]|].
  split; [|split; [|split; [|reflexivity]]].
  - induction observers as [|[x|] l IH]; [reflexivity | | exact IH].
    cbn [omap list_omap fmap option_fmap option_map]. rewrite !filter_cons.
    cbn [fst]. destruct (decide (x = o)) as [->|Hne].
    + rewrite decide_True by reflexivity. cbn [length]. f_equal. exact IH.
    + rewrite decide_False by congruence. exact IH.
  - induction observers as [|[x|] l IH]; [reflexivity | |].
    + rewrite filter_cons. cbn [omap list_omap fmap option_fmap option_map].
      rewrite filter_cons. cbn [fst]. destruct (decide (x = o)) as [->|Hne].
      * rewrite decide_False by (intros H; apply H; reflexivity).
        rewrite decide_False by (intros H; apply H; reflexivity). exact IH.
      * rewrite decide_True by congruence. rewrite decide_True by congruence.
        cbn [omap list_omap fmap option_fmap option_map]. f_equal. exact IH.
    + rewrite filter_cons_True by discriminate.
      cbn [omap list_omap fmap option_fmap option_map]. exact IH.
  - induction observers as [|[x|] l IH]; [reflexivity | |].
    + rewrite filter_cons_True by discriminate.
      cbn [omap list_omap fmap option_fmap option_map]. f_equal. exact IH.
    + rewrite filter_cons_False by (intros H; apply H; reflexivity).
      cbn [omap list_omap fmap option_fmap option_map]. exact IH.
Qed.

(** ** ShaderUtils: the stage of a shader file name *)

Lemma find_cons (a : ascii) (r : string) :
  find (String a r) delimiter =
    if Ascii.eqb a "." then Some 0%nat else S <$> find r delimiter.
Proof.
  unfold find, delimiter. cbn [String.index String.prefix].
  destruct (ascii_dec "." a) as [<-|Hne].
  - destruct r; reflexivity.
  - destruct (Ascii.eqb_spec a "."); [congruence|].
    destruct (String.index 0 "." r); reflexivity.
Qed.

Lemma substring_all (s : string) : String.substring 0 (String.length s) s = s.
Proof. induction s as [|c s IH]; cbn; [reflexivity | rewrite IH; reflexivity]. Qed.

Lemma erase_front (str : string) (n : nat) :
  erase str 0 n = String.substring n (String.length str - n) str.
Proof. unfold erase. destruct str, n; reflexivity. Qed.

(** What the loop does with a name: the text before the first dot is the
    first token, and the text after it holds the other tokens. *)
Lemma tokens_find (str : string) :
  match find str delimiter with
  | Some pos =>
      tokens str =
        substr str 0 pos :: tokens (erase str 0 (pos + String.length delimiter))
  | None => tokens str = [str]
  end.
Proof.
  induction str as [|a r IH]; [reflexivity|].
  rewrite find_cons. cbn [tokens]. destruct (Ascii.eqb a ".") eqn:Ha.
  - rewrite erase_front. unfold substr, delimiter.
    cbn [String.length Nat.add String.substring Nat.sub].
    rewrite Nat.sub_0_r, substring_all. reflexivity.
  - destruct (find r delimiter) as [pos|]; cbn [fmap option_fmap option_map].
    + rewrite IH. rewrite !erase_front. unfold substr, delimiter.
      cbn [String.length Nat.add String.substring Nat.sub]. reflexivity.
    + rewrite IH. reflexivity.
Qed.

Lemma head_omap_cons {A B : Type} (f : A -> option B) (x : A) (l : list A) :
  head (omap f (x :: l)) =
    match f x with
    | Some y => Some y
    | None => head (omap f l)
    end.
Proof. cbn. destruct (f x); reflexivity. Qed.

(** X12: [getShaderStage] splits the file name at its dots and returns the
    stage of the first part that is one of the six extension names, whether
    or not that part is the extension of the file; it returns
    VK_SHADER_STAGE_ALL when no part is one. *)
Theorem getShaderStage_first_known_token (shaderFileName : string) :
  getShaderStage shaderFileName =
    default VK_SHADER_STAGE_ALL (head (omap stageOfToken (tokens shaderFileName))).
Proof.
  unfold getShaderStage, stageOfToken.
  funelim (getShaderStageFrom shaderFileName);
    pose proof (tokens_find str) as Htokens.
  - rewrite Hfind in Htokens. rewrite Htokens, head_omap_cons, Heq. reflexivity.
  - rewrite Hfind in Htokens. rewrite Htokens, head_omap_cons, Heq. exact H.
  - rewrite e in Htokens. rewrite Htokens, head_omap_cons, Heq. reflexivity.
  - rewrite e in Htokens. rewrite Htokens, head_omap_cons, Heq. reflexivity.
Qed.

Lemma stageOfToken_known (token : string) (stage : VkShaderStageFlagBits) :
  stageOfToken token = Some stage ->
  stage <> VK_SHADER_STAGE_ALL /\ tokens token = [token].
Proof.
  unfold stageOfToken, _shaderStagesExtensions. intros H.
  apply elem_of_list_to_map_2 in H.
  repeat (apply elem_of_cons in H as [[= -> ->]|H]; [split; [discriminate | reflexivity]|]).
  apply elem_of_nil in H. contradiction.
Qed.

Lemma tokens_not_nil (str : string) : tokens str <> [].
Proof.
  induction str as [|c r IH]; cbn [tokens]; [discriminate|].
  destruct (Ascii.eqb c "."); [discriminate|].
  destruct (tokens r); [contradiction | discriminate].
Qed.

Lemma tokens_app_dot (name rest : string) :
  tokens (String.append name (String "." rest)) = tokens name ++ tokens rest.
Proof.
  induction name as [|c r IH]; [reflexivity|].
  change (String.append (String c r) (String "." rest))
    with (String c (String.append r (String "." rest))).
  cbn [tokens]. rewrite IH.
  destruct (Ascii.eqb c "."); [reflexivity|].
  pose proof (tokens_not_nil r) as Hne.
  destruct (tokens r) as [|token more]; [contradiction | reflexivity].
Qed.

Lemma omap_unknown {A B : Type} (f : A -> option B) (l : list A) :
  Forall (fun x => f x = None) l <-> omap f l = [].
Proof.
  induction l as [|x l IH]; [split; auto|].
  cbn. split.
  - intros [Hx Hl]%Forall_cons. rewrite Hx. apply IH. exact Hl.
  - destruct (f x) eqn:Hx; [discriminate|]. intros Hl. constructor; [exact Hx | apply IH; exact Hl].
Qed.

(** X13: the result is VK_SHADER_STAGE_ALL exactly when no part of the file
    name between dots is an extension name.  Parts that are no extension
    names are skipped: when no part of [name] is one, the stage of
    [name.rest] is the stage of [rest]; and the first extension name wins:
    the stage of [token.rest] is the stage of [token] whatever [rest] is,
    also when [rest] ends in another extension. *)
Theorem getShaderStage_parts (name rest token : string) (stage : VkShaderStageFlagBits) :
  (getShaderStage name = VK_SHADER_STAGE_ALL <->
   Forall (fun part => stageOfToken part = None) (tokens name)) /\
  (Forall (fun part => stageOfToken part = None) (tokens name) ->
   getShaderStage (String.append name (String "." rest)) = getShaderStage rest) /\
  (stageOfToken token = Some stage ->
   getShaderStage (String.append token (String "." rest)) = stage).
Proof.
  rewrite !getShaderStage_first_known_token. split; [|split].
  - rewrite omap_unknown. split.
    + destruct (omap stageOfToken (tokens name)) as [|st l] eqn:Homap; [reflexivity|].
      cbn. intros ->.
      assert (Hin : VK_SHADER_STAGE_ALL ∈ omap stageOfToken (tokens name))
        by (rewrite Homap; left).
      apply list_elem_of_omap in Hin as (part & _ & Hpart).
      apply stageOfToken_known in Hpart as [Hne _]. contradiction.
    + intros ->. reflexivity.
  - intros Hunknown%omap_unknown.
    rewrite tokens_app_dot, omap_app, Hunknown. reflexivity.
  - intros Hknown. destruct (stageOfToken_known _ _ Hknown) as [_ Htoken].
    rewrite tokens_app_dot, Htoken. cbn [app]. rewrite head_omap_cons, Hknown. reflexivity.
Qed.

Example getShaderStage_examples :
  getShaderStage "triangle.vert" = VK_SHADER_STAGE_VERTEX_BIT /\
  getShaderStage "res/shaders/gui.frag" = VK_SHADER_STAGE_FRAGMENT_BIT /\
  getShaderStage "comp.glsl.frag" = VK_SHADER_STAGE_COMPUTE_BIT /\
  getShaderStage "terrain.glsl" = VK_SHADER_STAGE_ALL /\
  getShaderStage "vertex" = VK_SHADER_STAGE_ALL.
Proof. repeat split; vm_compute; reflexivity. Qed.

(** * The frame loop as a whole *)

Lemma withCalls_wellFormed (index : Z) (cs : list RenderPassCall)
    (p : WdeRenderPipelineInstance) :
  wellFormed p -> wellFormed (withCalls index cs p).
Proof.
  intros [Hsize Hout Hpass]. split; simpl; rewrite ?length_alter; assumption.
Qed.

Lemma getSubPassesCount_calledAll (cs : list RenderPassCall) (pass : RenderPass) :
  getSubPassesCount (calledAll cs pass) = getSubPassesCount pass.
Proof. reflexivity. Qed.

(** One tick of the loop. *)
Lemma tick_of_ready_loop (index : Z) (js : list Z) (input : TickInput) (e : Engine) :
  loopReady index js e ->
  presentable (_swapchain (renderer e)) input ->
  rendersCycle index js input ->
  exists e',
    tick input e = Done tt e' /\
    loopReady index js e' /\
    pipeline e' = withCalls index (cycleCalls js) (pipeline e) /\
    _currentFrame (renderer e') =
      (_currentFrame (renderer e) + 1) mod _currentFramesInFlightCount (renderer e) /\
    _currentFramesInFlightCount (renderer e') = _currentFramesInFlightCount (renderer e) /\
    _inFlightFences (_swapchain (renderer e')) = _inFlightFences (_swapchain (renderer e)) /\
    _imageAvailableSemaphores (_swapchain (renderer e'))
      = _imageAvailableSemaphores (_swapchain (renderer e)) /\
    _renderFinishedSemaphores (_swapchain (renderer e'))
      = _renderFinishedSemaphores (_swapchain (renderer e)).
Proof.
  intros [Hwf Hout Hindex (pass & Hpass & Hjs) Hmax Hframe Hbufs Hfences]
         (Hpresent & Himage & Hwait & Hsignal) Hrender.
  destruct (renderPassCycle_done (pipeline e) index pass js Hwf Hout Hindex Hpass Hjs)
    as [Hcycle Hout'].
  assert (Hmax32 : Cxx.to_uint32 (_currentFramesInFlightCount (renderer e))
                   = _currentFramesInFlightCount (renderer e))
    by (apply to_uint32_small; unfold Cxx.UINT32_RANGE, Cxx.INT_MAX in *; lia).
  assert (Hmax64 : Cxx.to_size_t (_currentFramesInFlightCount (renderer e))
                   = _currentFramesInFlightCount (renderer e))
    by (apply to_size_t_small; unfold Cxx.SIZE_RANGE, Cxx.INT_MAX in *; lia).
  destruct (at_in_range (_commandBuffers (renderer e)) (_currentFrame (renderer e)))
    as (cb & Hcb & _); [lia|].
  destruct (at_in_range (_inFlightFences (_swapchain (renderer e)))
              (Cxx.to_uint32 (nextImage input - 1)
                 mod Cxx.to_uint32 (_currentFramesInFlightCount (renderer e))))
    as (lastFence & Hlast & _).
  { rewrite Hmax32.
    pose proof (Z.mod_pos_bound (Cxx.to_uint32 (nextImage input - 1))
                  (_currentFramesInFlightCount (renderer e))). lia. }
  destruct (at_in_range (_inFlightFences (_swapchain (renderer e))) (nextImage input))
    as (fence & Hfence & _); [lia|].
  destruct (at_in_range (_imageAvailableSemaphores (_swapchain (renderer e))) (nextImage input))
    as (w & Hw & _); [lia|].
  destruct (at_in_range (_renderFinishedSemaphores (_swapchain (renderer e))) (nextImage input))
    as (s & Hs & _); [lia|].
  eexists. split.
  - apply (tick_completes input e cb (withCalls index (cycleCalls js) (pipeline e))
             lastFence fence w s); try assumption.
    + rewrite Hrender. exact Hcycle.
    + rewrite Hmax32. lia.
    + rewrite Hmax64. lia.
  - cbn. split; [|split; [reflexivity|]].
    + split; cbn; rewrite ?length_insert; try assumption.
      * apply withCalls_wellFormed. exact Hwf.
      * exists (calledAll (cycleCalls js) pass). split; [|exact Hjs].
        apply withCalls_lookup. exact Hpass.
      * rewrite next_frame_index by (unfold Cxx.SIZE_RANGE, Cxx.INT_MAX in *; lia).
        apply Z.mod_pos_bound. lia.
    + split; [apply next_frame_index; unfold Cxx.SIZE_RANGE, Cxx.INT_MAX in *; lia|].
      repeat split.
Qed.

Lemma presentable_same_arrays (sc sc' : Swapchain) (input : TickInput) :
  _inFlightFences sc' = _inFlightFences sc ->
  _imageAvailableSemaphores sc' = _imageAvailableSemaphores sc ->
  _renderFinishedSemaphores sc' = _renderFinishedSemaphores sc ->
  presentable sc input -> presentable sc' input.
Proof. unfold presentable. intros -> -> ->. auto. Qed.

Lemma ready_loop_returns (index : Z) (js : list Z) (inputs : list TickInput) :
  forall e : Engine,
    loopReady index js e ->
    Forall (presentable (_swapchain (renderer e))) inputs ->
    Forall (rendersCycle index js) inputs ->
    exists e',
      ticks inputs e = Done tt e' /\
      loopReady index js e' /\
      _currentFrame (renderer e') =
        (_currentFrame (renderer e) + Z.of_nat (length inputs))
          mod _currentFramesInFlightCount (renderer e).
Proof.
  induction inputs as [|input rest IH]; intros e Hready Hpresent Hrender.
  - exists e. split; [reflexivity|]. split; [exact Hready|].
    cbn [length Z.of_nat]. rewrite Z.add_0_r, Z.mod_small; [reflexivity|].
    apply (ready_frame _ _ _ Hready).
  - apply Forall_cons in Hpresent as [Hp Hpresent].
    apply Forall_cons in Hrender as [Hr Hrender].
    destruct (tick_of_ready_loop index js input e Hready Hp Hr)
      as (e1 & Htick & Hready1 & _ & Hframe1 & Hmax1 & Hf & Hw & Hs).
    destruct (IH e1 Hready1) as (e' & Hticks & Hready' & Hframe'); [|exact Hrender|].
    { eapply Forall_impl; [exact Hpresent|]. intros input'.
      apply presentable_same_arrays; assumption. }
    exists e'. split; [|split; [exact Hready'|]].
    + cbn [ticks]. unfold bind. rewrite Htick. exact Hticks.
    + rewrite Hframe', Hmax1, Hframe1, Zplus_mod_idemp_l. f_equal.
      cbn [length]. lia.
Qed.

(** X14: the frame loop keeps going.  On an engine whose pipeline is outside
    of any pass and has pass [index] with the subpasses [js], with the frame
    index inside the ring and a command buffer and a fence for each frame of
    the ring, every run of ticks returns, however long, when each tick's
    render override begins pass [index], begins and ends the subpasses [js]
    in turn and ends the pass, and the surface hands out images the
    swapchain has a fence and signals for and presents them.  The engine is
    then ready for the next tick in the same way, and the frame index has
    advanced by the number of ticks modulo the frames in flight. *)
Theorem frame_loop_returns (index : Z) (js : list Z) (inputs : list TickInput)
    (e : Engine) :
  loopReady index js e ->
  Forall (presentable (_swapchain (renderer e))) inputs ->
  Forall (rendersCycle index js) inputs ->
  exists e',
    ticks inputs e = Done tt e' /\
    loopReady index js e' /\
    _currentFrame (renderer e') =
      (_currentFrame (renderer e) + Z.of_nat (length inputs))
        mod _currentFramesInFlightCount (renderer e).
Proof. apply ready_loop_returns. Qed.

Lemma frame_loop_returns_witness :
  exists e',
    ticks [ {| nextImage := 0; render := fun _ => runCalls (renderPassCycle 0 [0; 1]);
               presentResult := VK_SUCCESS |};
            {| nextImage := 1; render := fun _ => runCalls (renderPassCycle 0 [0; 1]);
               presentResult := VK_SUCCESS |} ]
      (exampleEngine 0 example02_pipeline) = Done tt e' /\
    _currentFrame (renderer e') = 2.
Proof.
  pose (input := fun image : Z =>
          {| nextImage := image; render := fun _ : Z => runCalls (renderPassCycle 0 [0; 1]);
             presentResult := VK_SUCCESS |}).
  pose (e := exampleEngine 0 example02_pipeline).
  assert (Hready : loopReady 0 [0; 1] e).
  { split.
    - concrete_wellFormed.
    - reflexivity.
    - vm_compute. split; congruence.
    - eexists. split; [reflexivity|]. repeat constructor; vm_compute; congruence.
    - vm_compute. split; congruence.
    - vm_compute. split; congruence.
    - vm_compute. congruence.
    - vm_compute. congruence. }
  assert (Hpresent : Forall (presentable (_swapchain (renderer e))) [input 0; input 1]).
  { repeat constructor; vm_compute; congruence. }
  assert (Hrender : Forall (rendersCycle 0 [0; 1]) [input 0; input 1]).
  { repeat constructor. }
  destruct (frame_loop_returns 0 [0; 1] [input 0; input 1] e Hready Hpresent Hrender)
    as (e' & Hticks & _ & Hframe).
  exists e'. split; [exact Hticks | exact Hframe].
Defined.

(** ** TransformModule: setParent *)

Lemma Transform_deref_Some (h : Transform.Store) (a : positive) (m : Transform.t) :
  h !! a = Some m -> Transform.deref (Some a) h = Done m h.
Proof. intros H. unfold Transform.deref. run. rewrite H. reflexivity. Qed.

Lemma Transform_update_Some (h : Transform.Store) (a : positive) (m : Transform.t)
    (f : Transform.t -> Transform.t) :
  h !! a = Some m -> Transform.update (Some a) f h = Done tt (alter f a h).
Proof.
  intros H. unfold Transform.update, bind. rewrite (Transform_deref_Some h a m H). reflexivity.
Qed.

Lemma Transform_detach_lookup (id : Z) (old : Transform.Ptr) (h : Transform.Store)
    (a : positive) :
  is_Some (Transform.detach id old h !! a) <-> is_Some (h !! a).
Proof.
  destruct old as [o|]; [|reflexivity]. unfold Transform.detach.
  rewrite lookup_alter. case_decide; [subst; rewrite fmap_is_Some|]; reflexivity.
Qed.

Lemma Transform_detach_fields (id : Z) (old : Transform.Ptr) (h : Transform.Store)
    (a : positive) (m : Transform.t) :
  h !! a = Some m ->
  exists m', Transform.detach id old h !! a = Some m'
    /\ Transform._gameObjectID m' = Transform._gameObjectID m
    /\ Transform._parent m' = Transform._parent m.
Proof.
  intros H. destruct old as [o|]; [|exists m; auto]. unfold Transform.detach.
  rewrite lookup_alter. case_decide.
  - subst. rewrite H. eexists. split; [reflexivity|]. split; reflexivity.
  - exists m. auto.
Qed.

Lemma setParent_store (h : Transform.Store) (this parent : positive)
    (self pm : Transform.t) :
  h !! this = Some self ->
  h !! parent = Some pm ->
  (forall old, Transform._parent self = Some old -> is_Some (h !! old)) ->
  Transform.setParent this (Some parent) h =
    Done tt (alter (Transform.pushID (Transform._gameObjectID self)) parent
               (alter (Transform.set_parent (Some parent)) this
                  (Transform.detach (Transform._gameObjectID self)
                     (Transform._parent self) h))).
Proof.
  intros Hthis Hparent Hold. unfold Transform.setParent. unfold bind at 1.
  rewrite (Transform_deref_Some h this self Hthis). unfold bind at 1.
  assert (Hdetach :
    (if bool_decide (Transform._parent self <> None)
     then Transform.update (Transform._parent self)
            (Transform.eraseID (Transform._gameObjectID self))
     else ret tt) h
    = Done tt (Transform.detach (Transform._gameObjectID self) (Transform._parent self) h)).
  { destruct (Transform._parent self) as [old|] eqn:Hp.
    - rewrite bool_decide_eq_true_2 by discriminate.
      destruct (Hold old eq_refl) as [om Hom].
      apply (Transform_update_Some h old om). exact Hom.
    - rewrite bool_decide_eq_false_2 by (intros H; apply H; reflexivity). reflexivity. }
  rewrite Hdetach. clear Hdetach.
  set (h1 := Transform.detach _ _ h).
  destruct (Transform_detach_fields (Transform._gameObjectID self)
              (Transform._parent self) h this self Hthis) as (self1 & Hthis1 & Hid1 & _).
  fold h1 in Hthis1.
  unfold bind at 1. rewrite (Transform_update_Some h1 this self1 _ Hthis1).
  set (h2 := alter _ this h1).
  assert (Hthis2 : h2 !! this = Some (Transform.set_parent (Some parent) self1)).
  { unfold h2. rewrite lookup_alter_eq, Hthis1. reflexivity. }
  unfold bind at 1. rewrite (Transform_deref_Some h2 this _ Hthis2).
  assert (Hparent2 : is_Some (h2 !! parent)).
  { unfold h2. rewrite lookup_alter. case_decide.
    - rewrite Hthis1. eexists; reflexivity.
    - apply Transform_detach_lookup. rewrite Hparent. eexists; reflexivity. }
  destruct Hparent2 as [pm2 Hparent2].
  change (Transform._parent (Transform.set_parent (Some parent) self1)) with (Some parent).
  change (Transform._gameObjectID (Transform.set_parent (Some parent) self1))
    with (Transform._gameObjectID self1).
  rewrite (Transform_update_Some h2 parent pm2 _ Hparent2), Hid1. reflexivity.
Qed.

Lemma Transform_update_cases (h : Transform.Store) (p : Transform.Ptr)
    (f : Transform.t -> Transform.t) :
  Transform.update p f h = Undefined \/
  exists a m, p = Some a /\ h !! a = Some m /\
    Transform.update p f h = Done tt (alter f a h).
Proof.
  destruct p as [a|]; [|left; reflexivity].
  destruct (h !! a) as [m|] eqn:Ha.
  - right. exists a, m. split; [reflexivity|]. split; [exact Ha|].
    apply (Transform_update_Some h a m f Ha).
  - left. unfold Transform.update, Transform.deref, bind, gets, defined. rewrite Ha.
    reflexivity.
Qed.

Lemma to_uint32_to_int (id : Z) :
  0 <= id <= Cxx.INT_MAX -> Cxx.to_uint32 (Cxx.to_int id) = id.
Proof.
  intros Hid. rewrite to_int_small by exact Hid. apply to_uint32_small.
  unfold Cxx.INT_MAX, Cxx.UINT32_RANGE in *. lia.
Qed.

Lemma Transform_idOf_alter (f : Transform.t -> Transform.t) (a b : positive)
    (h : Transform.Store) :
  (forall m, Transform._gameObjectID (f m) = Transform._gameObjectID m) ->
  Transform.idOf (alter f a h) b = Transform.idOf h b.
Proof.
  intros Hf. unfold Transform.idOf. rewrite lookup_alter. case_decide; [|reflexivity].
  subst. destruct (h !! b) as [m|]; [|reflexivity]. simpl. rewrite Hf. reflexivity.
Qed.

Lemma Transform_parentOf_alter (f : Transform.t -> Transform.t) (a b : positive)
    (h : Transform.Store) :
  (forall m, Transform._parent (f m) = Transform._parent m) ->
  Transform.parentOf (alter f a h) b = Transform.parentOf h b.
Proof.
  intros Hf. unfold Transform.parentOf. rewrite lookup_alter. case_decide; [|reflexivity].
  subst. destruct (h !! b) as [m|]; [|reflexivity]. simpl. rewrite Hf. reflexivity.
Qed.

Lemma Transform_childrenOf_alter (f : Transform.t -> Transform.t) (a b : positive)
    (h : Transform.Store) :
  (forall m, Transform._childrenIDs (f m) = Transform._childrenIDs m) ->
  Transform.childrenOf (alter f a h) b = Transform.childrenOf h b.
Proof.
  intros Hf. unfold Transform.childrenOf. rewrite lookup_alter. case_decide; [|reflexivity].
  subst. destruct (h !! b) as [m|]; [|reflexivity]. simpl. rewrite Hf. reflexivity.
Qed.

Lemma Transform_childrenOf_alter_ne (f : Transform.t -> Transform.t) (a b : positive)
    (h : Transform.Store) :
  a <> b -> Transform.childrenOf (alter f a h) b = Transform.childrenOf h b.
Proof.
  intros Hab. unfold Transform.childrenOf. rewrite lookup_alter_ne by exact Hab.
  reflexivity.
Qed.

Lemma Transform_childrenOf_alter_eq (f : Transform.t -> Transform.t) (a : positive)
    (m : Transform.t) (h : Transform.Store) :
  h !! a = Some m ->
  Transform.childrenOf (alter f a h) a = Transform._childrenIDs (f m).
Proof.
  intros Ha. unfold Transform.childrenOf. rewrite lookup_alter_eq, Ha. reflexivity.
Qed.

Lemma Transform_detach_idOf (id : Z) (old : Transform.Ptr) (h : Transform.Store)
    (a : positive) :
  Transform.idOf (Transform.detach id old h) a = Transform.idOf h a.
Proof.
  destruct old as [o|]; [|reflexivity]. apply Transform_idOf_alter. reflexivity.
Qed.

Lemma Transform_detach_parentOf (id : Z) (old : Transform.Ptr) (h : Transform.Store)
    (a : positive) :
  Transform.parentOf (Transform.detach id old h) a = Transform.parentOf h a.
Proof.
  destruct old as [o|]; [|reflexivity]. apply Transform_parentOf_alter. reflexivity.
Qed.

Lemma Transform_detach_childrenOf (id : Z) (old : Transform.Ptr) (h : Transform.Store)
    (a : positive) :
  Transform.childrenOf (Transform.detach id old h) a =
    if decide (old = Some a)
    then filter (fun child => Cxx.to_uint32 child <> id) (Transform.childrenOf h a)
    else Transform.childrenOf h a.
Proof.
  destruct old as [o|]; [|rewrite decide_False by discriminate; reflexivity].
  unfold Transform.detach. case_decide as Ho.
  - injection Ho as ->. unfold Transform.childrenOf. rewrite lookup_alter_eq.
    destruct (h !! a) as [m|]; reflexivity.
  - apply Transform_childrenOf_alter_ne. congruence.
Qed.

Lemma Transform_detach_dom (id : Z) (old : Transform.Ptr) (h : Transform.Store) :
  dom (Transform.detach id old h) = dom h.
Proof. destruct old as [o|]; [apply dom_alter_L|reflexivity]. Qed.

Lemma setParent_effect (h : Transform.Store) (this parent : positive)
    (self pm : Transform.t) :
  h !! this = Some self ->
  h !! parent = Some pm ->
  (forall old, Transform._parent self = Some old -> is_Some (h !! old)) ->
  0 <= Transform._gameObjectID self <= Cxx.INT_MAX ->
  exists h',
    Transform.setParent this (Some parent) h = Done tt h' /\
    (forall a, Transform.parentOf h' a
                 = if decide (a = this) then Some parent else Transform.parentOf h a) /\
    (forall a, Transform.childrenOf h' a
                 = Transform.movedChildren self parent a (Transform.childrenOf h a)) /\
    (forall a, Transform.idOf h' a = Transform.idOf h a) /\
    dom h' = dom h.
Proof.
  intros Hthis Hparent Hold Hid. eexists. split.
  { apply (setParent_store h this parent self pm Hthis Hparent Hold). }
  set (id := Transform._gameObjectID self) in *.
  set (h1 := Transform.detach id (Transform._parent self) h).
  set (h2 := alter (Transform.set_parent (Some parent)) this h1).
  assert (Hparent2 : is_Some (h2 !! parent)).
  { unfold h2. rewrite lookup_alter. case_decide.
    - subst. rewrite fmap_is_Some. apply Transform_detach_lookup. eexists; exact Hthis.
    - apply Transform_detach_lookup. eexists; exact Hparent. }
  destruct Hparent2 as [pm2 Hparent2].
  split; [|split; [|split]].
  - intros a. rewrite Transform_parentOf_alter by reflexivity.
    unfold h2, Transform.parentOf. rewrite lookup_alter. case_decide as Ha.
    + subst a. rewrite decide_True by reflexivity.
      destruct (Transform_detach_fields id (Transform._parent self) h this self Hthis)
        as (self1 & Hthis1 & _).
      fold h1 in Hthis1. rewrite Hthis1. reflexivity.
    + rewrite decide_False by congruence.
      apply (Transform_detach_parentOf id (Transform._parent self) h a).
  - intros a. unfold Transform.movedChildren. fold id.
    rewrite <- (Transform_detach_childrenOf id (Transform._parent self) h a). fold h1.
    rewrite <- (Transform_childrenOf_alter (Transform.set_parent (Some parent)) this a h1)
      by reflexivity.
    fold h2. case_decide as Ha.
    + subst a. rewrite (Transform_childrenOf_alter_eq _ parent pm2 h2 Hparent2).
      unfold Transform.childrenOf. rewrite Hparent2. cbn.
      rewrite (to_int_small id Hid). reflexivity.
    + rewrite app_nil_r. apply Transform_childrenOf_alter_ne. congruence.
  - intros a. rewrite Transform_idOf_alter by reflexivity.
    unfold h2. rewrite Transform_idOf_alter by reflexivity.
    apply Transform_detach_idOf.
  - rewrite dom_alter_L. unfold h2. rewrite dom_alter_L. apply Transform_detach_dom.
Qed.

(** X15: [setParent] with a parent that is in the store returns, and changes
    exactly this: the module points to the new parent, its id leaves the list
    of the old parent and is pushed at the back of the list of the new one;
    the ids, the other parent pointers, the other lists and the addresses of
    the store are as before. *)
Theorem setParent_links (h : Transform.Store) (this parent : positive)
    (self pm : Transform.t) :
  h !! this = Some self ->
  h !! parent = Some pm ->
  (forall old, Transform._parent self = Some old -> is_Some (h !! old)) ->
  0 <= Transform._gameObjectID self <= Cxx.INT_MAX ->
  exists h',
    Transform.setParent this (Some parent) h = Done tt h' /\
    (forall a, Transform.parentOf h' a
                 = if decide (a = this) then Some parent else Transform.parentOf h a) /\
    (forall a, Transform.childrenOf h' a
                 = Transform.movedChildren self parent a (Transform.childrenOf h a)) /\
    (forall a, Transform.idOf h' a = Transform.idOf h a) /\
    dom h' = dom h.
Proof.
  intros Hthis Hparent Hold Hid.
  exact (setParent_effect h this parent self pm Hthis Hparent Hold Hid).
Qed.

(** X16: [setParent(nullptr)] has no defined behaviour, whatever the store:
    the null parent it has just stored is dereferenced to push the id. *)
Theorem setParent_null_undefined (h : Transform.Store) (this : positive) :
  Transform.setParent this None h = Undefined.
Proof.
  unfold Transform.setParent. unfold bind at 1.
  destruct (h !! this) as [self|] eqn:Hthis.
  2:{ unfold Transform.deref, bind, gets, defined. rewrite Hthis. reflexivity. }
  rewrite (Transform_deref_Some h this self Hthis). unfold bind at 1.
  assert (Hfirst : exists h1,
    ((if bool_decide (Transform._parent self <> None)
      then Transform.update (Transform._parent self)
             (Transform.eraseID (Transform._gameObjectID self))
      else ret tt) h = Undefined) \/
    ((if bool_decide (Transform._parent self <> None)
      then Transform.update (Transform._parent self)
             (Transform.eraseID (Transform._gameObjectID self))
      else ret tt) h = Done tt h1)).
  { case_bool_decide.
    - destruct (Transform_update_cases h (Transform._parent self)
                  (Transform.eraseID (Transform._gameObjectID self)))
        as [Hu|(a & m & _ & _ & Hd)].
      + exists h. left. exact Hu.
      + eexists. right. exact Hd.
    - exists h. right. reflexivity. }
  destruct Hfirst as [h1 [Hu|Hd]]; [rewrite Hu; reflexivity|]. rewrite Hd.
  unfold bind at 1.
  destruct (Transform_update_cases h1 (Some this) (Transform.set_parent None))
    as [Hu|(a & m & Ha & Hm & Hd2)]; [rewrite Hu; reflexivity|].
  rewrite Hd2. injection Ha as <-. unfold bind at 1.
  rewrite (Transform_deref_Some _ this (Transform.set_parent None m)).
  2:{ rewrite lookup_alter_eq, Hm. reflexivity. }
  reflexivity.
Qed.

Lemma setParent_sceneTree (h : Transform.Store) (this parent : positive)
    (self : Transform.t) :
  Transform.sceneTree h ->
  h !! this = Some self ->
  is_Some (h !! parent) ->
  exists h',
    Transform.setParent this (Some parent) h = Done tt h' /\ Transform.sceneTree h'.
Proof.
  intros [Hlinked Hlisted Hunique Hfit] Hthis [pm Hparent].
  assert (Hidthis : Transform.idOf h this = Some (Transform._gameObjectID self)).
  { unfold Transform.idOf. rewrite Hthis. reflexivity. }
  assert (Hpthis : Transform.parentOf h this = Transform._parent self).
  { unfold Transform.parentOf. rewrite Hthis. reflexivity. }
  assert (Hid := Hfit this _ Hidthis).
  assert (Hold : forall old, Transform._parent self = Some old -> is_Some (h !! old)).
  { intros old Hp. rewrite <- Hpthis in Hp.
    pose proof (Hlinked this old _ Hp Hidthis) as Hin.
    unfold Transform.childrenOf in Hin. destruct (h !! old) as [om|].
    - eexists; reflexivity.
    - apply elem_of_nil in Hin. destruct Hin. }
  destruct (setParent_effect h this parent self pm Hthis Hparent Hold Hid)
    as (h' & Hrun & Hparents & Hchildren & Hids & _).
  exists h'. split; [exact Hrun|].
  set (id := Transform._gameObjectID self) in *.
  assert (Hsame : Cxx.to_uint32 id = id).
  { apply to_uint32_small. unfold Cxx.INT_MAX, Cxx.UINT32_RANGE in *. lia. }
  split.
  - intros a p i Hp Hi. rewrite Hparents in Hp. rewrite Hids in Hi.
    rewrite Hchildren. unfold Transform.movedChildren. fold id.
    apply elem_of_app. destruct (decide (a = this)) as [->|Ha].
    + injection Hp as <-. rewrite Hidthis in Hi. injection Hi as <-.
      right. rewrite decide_True by reflexivity. apply list_elem_of_singleton. reflexivity.
    + left. pose proof (Hlinked a p i Hp Hi) as Hin. case_decide; [|exact Hin].
      apply list_elem_of_filter. split; [|exact Hin].
      intros Heq. apply Ha. apply (Hunique a this id); [|exact Hidthis].
      rewrite Hi. f_equal. rewrite <- Heq. symmetry. apply to_uint32_small.
      pose proof (Hfit a i Hi). unfold Cxx.INT_MAX, Cxx.UINT32_RANGE in *. lia.
  - intros p child Hin. rewrite Hchildren in Hin. unfold Transform.movedChildren in Hin.
    fold id in Hin. apply elem_of_app in Hin as [Hin|Hin].
    + assert (Hin0 : child ∈ Transform.childrenOf h p).
      { case_decide; [apply list_elem_of_filter in Hin; apply Hin|exact Hin]. }
      destruct (Hlisted p child Hin0) as (a & Hi & Hp).
      exists a. rewrite Hids, Hparents. split; [exact Hi|].
      destruct (decide (a = this)) as [->|Ha]; [|exact Hp]. exfalso.
      rewrite Hidthis in Hi. injection Hi as <-.
      rewrite Hpthis in Hp. rewrite decide_True in Hin by exact Hp.
      apply list_elem_of_filter in Hin as [Hne _]. apply Hne. exact Hsame.
    + case_decide as Hp; [|apply elem_of_nil in Hin; destruct Hin].
      apply list_elem_of_singleton in Hin. subst p child.
      exists this. rewrite Hids, Hparents. split; [exact Hidthis|].
      rewrite decide_True by reflexivity. reflexivity.
  - intros a b i Ha Hb. rewrite Hids in Ha, Hb. apply (Hunique a b i Ha Hb).
  - intros a i Ha. rewrite Hids in Ha. apply (Hfit a i Ha).
Qed.

Lemma setParent_links_witness :
  exists h',
    Transform.setParent 1 (Some 3%positive) Transform.exampleScene = Done tt h' /\
    Transform.parentOf h' 1 = Some 3%positive /\
    Transform.childrenOf h' 2 = [] /\
    Transform.childrenOf h' 3 = [10].
Proof.
  assert (Hthis : Transform.exampleScene !! 1%positive = Some Transform.exampleChild)
    by (vm_compute; reflexivity).
  assert (Hparent : Transform.exampleScene !! 3%positive = Some Transform.exampleOther)
    by (vm_compute; reflexivity).
  assert (Hold : forall old, Transform._parent Transform.exampleChild = Some old ->
                   is_Some (Transform.exampleScene !! old)).
  { intros old Hp. injection Hp as <-. exists Transform.exampleParent.
    vm_compute. reflexivity. }
  assert (Hid : 0 <= Transform._gameObjectID Transform.exampleChild <= Cxx.INT_MAX)
    by (unfold Cxx.INT_MAX; cbn; lia).
  destruct (setParent_links Transform.exampleScene 1 3 Transform.exampleChild
              Transform.exampleOther Hthis Hparent Hold Hid)
    as (h' & Hrun & Hparents & Hchildren & _).
  exists h'. split; [exact Hrun|].
  rewrite Hparents, !Hchildren. vm_compute. repeat split; reflexivity.
Defined.

(** X17: [setParent] with a parent that is in the store keeps a scene tree a
    scene tree: afterwards too every module is listed by its parent and
    every listed id is the id of a module with that parent. *)
Theorem setParent_keeps_sceneTree (h : Transform.Store) (this parent : positive)
    (self : Transform.t) :
  Transform.sceneTree h ->
  h !! this = Some self ->
  is_Some (h !! parent) ->
  exists h',
    Transform.setParent this (Some parent) h = Done tt h' /\ Transform.sceneTree h'.
Proof.
  intros Htree Hthis Hparent.
  exact (setParent_sceneTree h this parent self Htree Hthis Hparent).
Qed.

Ltac scene_address a :=
  destruct a as [[a|a|]|[a|a|]|]; vm_compute in *; try discriminate.

Lemma exampleScene_sceneTree : Transform.sceneTree Transform.exampleScene.
Proof.
  split.
  - intros a p id Hp Hid. scene_address a.
    injection Hp as <-. injection Hid as <-. vm_compute. constructor.
  - intros p child Hin. exists 1%positive.
    scene_address p; try (inversion Hin; fail).
    inversion Hin as [|? ? ? Hnil]; [split; reflexivity|inversion Hnil].
  - intros a b id Ha Hb. scene_address a; scene_address b; try reflexivity; congruence.
  - intros a id Ha. unfold Cxx.INT_MAX.
    destruct a as [[a|a|]|[a|a|]|]; vm_compute in Ha; try discriminate;
      injection Ha as <-; lia.
Qed.

Lemma setParent_keeps_sceneTree_witness :
  exists h',
    Transform.setParent 1 (Some 3%positive) Transform.exampleScene = Done tt h' /\
    Transform.sceneTree h'.
Proof.
  assert (Hthis : Transform.exampleScene !! 1%positive = Some Transform.exampleChild)
    by (vm_compute; reflexivity).
  assert (Hparent : is_Some (Transform.exampleScene !! 3%positive))
    by (exists Transform.exampleOther; vm_compute; reflexivity).
  exact (setParent_keeps_sceneTree Transform.exampleScene 1 3 Transform.exampleChild
           exampleScene_sceneTree Hthis Hparent).
Defined.

(** * The properties on the examples *)

Lemma protocol_throws_leave_state_witness :
  (exists e, beginRenderPass 0 example02_inPass = Throw e example02_inPass) /\
  (exists e, endRenderPass example02_inSubPass = Throw e example02_inSubPass).
Proof.
  assert (Hbegin : exists e p', beginRenderPass 0 example02_inPass = Throw e p')
    by (vm_compute; eauto).
  assert (Hend : exists e p', endRenderPass example02_inSubPass = Throw e p')
    by (vm_compute; eauto).
  destruct Hbegin as (e1 & p1 & Hbegin). destruct Hend as (e2 & p2 & Hend).
  destruct (protocol_throws_leave_state example02_inPass p1 0 e1) as (H1 & _).
  destruct (protocol_throws_leave_state example02_inSubPass p2 0 e2) as (_ & H2 & _).
  split; [exists e1 | exists e2].
  - rewrite Hbegin. f_equal. exact (H1 Hbegin).
  - rewrite Hend. f_equal. exact (H2 Hend).
Defined.

Lemma onWindowResized_replays_witness :
  onWindowResized example02_pipeline = Done tt example02_pipeline.
Proof.
  pose (p := set_attachments example02_attachments newPipeline).
  assert (Hset : setStructure example02_structure p = Done tt example02_pipeline)
    by (vm_compute; reflexivity).
  destruct (onWindowResized_replays example02_structure p example02_pipeline)
    as (Hdone & _).
  destruct (Hdone Hset) as (_ & Hresize). rewrite Hresize. vm_compute. reflexivity.
Defined.

Lemma getShaderStage_parts_witness :
  getShaderStage "cube.vert.spv" = VK_SHADER_STAGE_VERTEX_BIT /\
  getShaderStage "frag.vert" = VK_SHADER_STAGE_FRAGMENT_BIT.
Proof.
  destruct (getShaderStage_parts "cube" "vert.spv" "frag" VK_SHADER_STAGE_FRAGMENT_BIT)
    as (_ & Hskip & _).
  destruct (getShaderStage_parts "frag" "vert" "frag" VK_SHADER_STAGE_FRAGMENT_BIT)
    as (_ & _ & Hfirst).
  split.
  - change "cube.vert.spv"%string with (String.append "cube" (String "." "vert.spv")).
    rewrite Hskip; [vm_compute; reflexivity|].
    repeat constructor.
  - change "frag.vert"%string with (String.append "frag" (String "." "vert")).
    apply Hfirst. vm_compute. reflexivity.
Defined.
